(** * SSH-Demo: the per-channel request dispatcher of [main.go]

    A shallow embedding of [handleConn] and [sendExitStatus] (src/main.go).
    The loop over a channel's requests becomes a function [step] from the
    local variables of the goroutine, one request and the answers of the
    host to the calls made while that request is handled, to the calls the
    handler makes on the channel, the pty and the process, in program order.
    The goroutines started for the stream relay are studied separately in
    [Module Relay] as an interleaving semantics. *)

From Stdlib Require Import ZArith List String Ascii Bool Lia.
From Stdlib Require Import Strings.Byte.
Import ListNotations.
Open Scope string_scope.
Open Scope list_scope.
Open Scope Z_scope.

(** ** Machine integers *)

(** Go's conversions [uint16(x)] and [uint32(x)] keep the low bits. *)
Definition uint16 (x : Z) : Z := x mod 2 ^ 16.
Definition uint32 (x : Z) : Z := x mod 2 ^ 32.

(** ** Wire encoding of request payloads

    [ssh.Unmarshal] and [ssh.Marshal] belong to golang.org/x/crypto/ssh, not
    to this repository.  They are instantiated at the three anonymous structs
    of [handleConn] and at [exitStatus]. *)
Module Wire.

Definition byteZ (b : byte) : Z := Z.of_N (Byte.to_N b).

Definition Zbyte (x : Z) : byte :=
  match Byte.of_N (Z.to_N (x mod 256)) with
  | Some b => b
  | None => x00
  end.

(** Modelled from the spec: big-endian [uint32], section 6. *)
Definition parseUint32 (data : list byte) : option (Z * list byte) :=
  match data with
  | b0 :: b1 :: b2 :: b3 :: rest =>
      Some (Z.lor (Z.shiftl (byteZ b0) 24)
             (Z.lor (Z.shiftl (byteZ b1) 16)
               (Z.lor (Z.shiftl (byteZ b2) 8) (byteZ b3))), rest)
  | _ => None
  end.

(** Modelled from the spec: length-prefixed string, section 6. *)
Definition parseString (data : list byte) : option (list byte * list byte) :=
  match parseUint32 data with
  | Some (len, rest) =>
      if Z.of_nat (List.length rest) <? len then None
      else Some (firstn (Z.to_nat len) rest, skipn (Z.to_nat len) rest)
  | None => None
  end.

Definition marshalUint32 (x : Z) : list byte :=
  [Zbyte (Z.shiftr x 24); Zbyte (Z.shiftr x 16); Zbyte (Z.shiftr x 8); Zbyte x].

Definition marshalString (s : list byte) : list byte :=
  marshalUint32 (Z.of_nat (List.length s)) ++ s.

(** The struct [p] of the "pty-req" case. *)
Record ptyReq := {
  Term : string;
  pCols : Z;
  pRows : Z;
  pWidth : Z;
  pHeight : Z;
  Modes : list byte
}.

(** The struct [wc] of the "window-change" case. *)
Record windowChange := {
  wCols : Z;
  wRows : Z;
  wWidth : Z;
  wHeight : Z
}.

(** Modelled from the spec: the terminal-request payload of section 6,
    [term-name:string, columns, rows, pixel-width, pixel-height:uint32,
    mode-bytes:binary]; bytes left over are a parse error. *)
Definition Unmarshal_ptyReq (data : list byte) : option ptyReq :=
  match parseString data with
  | Some (term, d1) =>
    match parseUint32 d1 with
    | Some (cols, d2) =>
      match parseUint32 d2 with
      | Some (rows, d3) =>
        match parseUint32 d3 with
        | Some (width, d4) =>
          match parseUint32 d4 with
          | Some (height, d5) =>
            match parseString d5 with
            | Some (modes, []) =>
                Some {| Term := string_of_list_byte term;
                        pCols := cols; pRows := rows;
                        pWidth := width; pHeight := height;
                        Modes := modes |}
            | _ => None
            end
          | None => None
          end
        | None => None
        end
      | None => None
      end
    | None => None
    end
  | None => None
  end.

(** Modelled from the spec: the resize payload of section 6,
    [columns, rows, pixel-width, pixel-height : uint32]. *)
Definition Unmarshal_windowChange (data : list byte) : option windowChange :=
  match parseUint32 data with
  | Some (cols, d1) =>
    match parseUint32 d1 with
    | Some (rows, d2) =>
      match parseUint32 d2 with
      | Some (width, d3) =>
        match parseUint32 d3 with
        | Some (height, []) =>
            Some {| wCols := cols; wRows := rows;
                    wWidth := width; wHeight := height |}
        | _ => None
        end
      | None => None
      end
    | None => None
    end
  | None => None
  end.

(** Modelled from the spec: the run-exact-command payload of section 6,
    [command:string]. *)
Definition Unmarshal_exec (data : list byte) : option string :=
  match parseString data with
  | Some (command, []) => Some (string_of_list_byte command)
  | _ => None
  end.

(** Encoders used to build concrete payloads. *)
Definition Marshal_ptyReq (p : ptyReq) : list byte :=
  marshalString (list_byte_of_string (Term p))
    ++ marshalUint32 (pCols p) ++ marshalUint32 (pRows p)
    ++ marshalUint32 (pWidth p) ++ marshalUint32 (pHeight p)
    ++ marshalString (Modes p).

Definition Marshal_windowChange (w : windowChange) : list byte :=
  marshalUint32 (wCols w) ++ marshalUint32 (wRows w)
    ++ marshalUint32 (wWidth w) ++ marshalUint32 (wHeight w).

Definition Marshal_exec (command : string) : list byte :=
  marshalString (list_byte_of_string command).

(** [ssh.Marshal(exitStatus{Status: s})]: one big-endian [uint32]. *)
Definition Marshal_exitStatus (s : Z) : list byte := marshalUint32 s.

End Wire.

(** ** Host answers *)

(** [*os.File], named by its descriptor. *)
Definition File := Z.

(** [syscall.WaitStatus] on Linux: a [uint32]. *)
Definition WaitStatus := Z.

Definition Exited (w : WaitStatus) : bool := Z.land w 127 =? 0.

Definition ExitStatus (w : WaitStatus) : Z :=
  if Exited w then Z.land (Z.shiftr w 8) 255 else -1.

(** What [exitErr.Sys()] holds. *)
Inductive Sys :=
| SysWaitStatus (w : WaitStatus)
| SysOther.

(** A non-nil [error] returned by [cmd.Wait()], by dynamic type. *)
Inductive error :=
| ExitError (sys : Sys)
| OtherError.

(** Results of the calls into the operating system made while one request
    is handled. *)
Record host := {
  stat_bash : bool;            (* os.Stat("/bin/bash") returned no error *)
  pty_Start : option File;     (* pty.Start(cmd): the master side or an error *)
  cmd_Start : bool;            (* cmd.Start() returned no error *)
  cmd_Wait : option error      (* cmd.Wait(): nil or an error *)
}.

(** ** Requests, commands and observable calls *)

Record Request := {
  Type_ : string;
  Payload : list byte
}.

(** Where a standard stream of the child is connected. *)
Inductive stdio :=
| Unset                 (* the field is nil *)
| Channel               (* ch *)
| ChannelStderr         (* ch.Stderr() *)
| Pipe.                 (* StdinPipe / StdoutPipe / StderrPipe *)

Record Cmd := {
  Path : string;
  Args : list string;
  Stdin : stdio;
  Stdout : stdio;
  Stderr : stdio
}.

Definition exec_Command (name : string) (arg : list string) : Cmd :=
  {| Path := name; Args := name :: arg;
     Stdin := Unset; Stdout := Unset; Stderr := Unset |}.

Record Winsize := {
  Rows : Z;
  Cols : Z;
  X : Z;
  Y : Z
}.

(** Ends of an [io.Copy]. *)
Inductive endpoint :=
| EChannel
| EChannelStderr
| EPty (f : File)
| EStdin
| EStdout
| EStderr.

Inductive event :=
| Reply (ok : bool)                         (* req.Reply(ok, nil) *)
| Setsize (f : File) (ws : Winsize)         (* pty.Setsize(f, &ws) *)
| PtyStart (c : Cmd) (f : File)             (* pty.Start(cmd) succeeded *)
| Start (c : Cmd)                           (* cmd.Start() succeeded *)
| Go (dst src : endpoint)                   (* go io.Copy(dst, src) *)
| SendRequest (name : string) (wantReply : bool) (payload : list byte)
| Close.                                    (* deferred ch.Close() *)

(** ** The goroutine of one channel *)

Record state := {
  ptyRequested : bool;
  ptyCols : Z;
  ptyRows : Z;
  ptyFile : option File
}.

Definition init : state :=
  {| ptyRequested := false; ptyCols := 0; ptyRows := 0; ptyFile := None |}.

(** After a request: [Continue] covers both [continue] and falling out of
    the [switch]; [Return] leaves the loop. *)
Inductive outcome :=
| Continue (st : state)
| Return.

Definition sendExitStatus (status : Z) : list event :=
  [SendRequest "exit-status" false (Wire.Marshal_exitStatus (uint32 status))].

(** The [if err := cmd.Wait(); err != nil { ... } else { ... }] block. *)
Definition reportExit (werr : option error) : list event :=
  match werr with
  | Some (ExitError (SysWaitStatus status)) => sendExitStatus (ExitStatus status)
  | Some _ => []
  | None => sendExitStatus 0
  end.

Definition shellCommand (h : host) : Cmd :=
  exec_Command (if stat_bash h then "/bin/bash" else "/bin/sh") ["-l"].

Definition step (st : state) (req : Request) (h : host) : list event * outcome :=
  if (Type_ req =? "pty-req")%string then
    match Wire.Unmarshal_ptyReq (Payload req) with
    | None => ([Reply false], Continue st)
    | Some p =>
        ([Reply true],
         Continue {| ptyRequested := true;
                     ptyCols := Wire.pCols p;
                     ptyRows := Wire.pRows p;
                     ptyFile := ptyFile st |})
    end
  else if (Type_ req =? "window-change")%string then
    match Wire.Unmarshal_windowChange (Payload req) with
    | Some wc =>
        (match ptyFile st with
         | Some f => [Setsize f {| Rows := uint16 (Wire.wRows wc);
                                   Cols := uint16 (Wire.wCols wc);
                                   X := 0; Y := 0 |}]
         | None => []
         end,
         Continue {| ptyRequested := ptyRequested st;
                     ptyCols := Wire.wCols wc;
                     ptyRows := Wire.wRows wc;
                     ptyFile := ptyFile st |})
    | None => ([], Continue st)
    end
  else if (Type_ req =? "shell")%string then
    if negb (Nat.eqb (List.length (Payload req)) 0) then ([Reply false], Continue st)
    else
      let cmd := shellCommand h in
      if ptyRequested st then
        match pty_Start h with
        | None => ([Reply false], Continue st)
        | Some f =>
            ([PtyStart cmd f]
               ++ (if (0 <? ptyCols st) && (0 <? ptyRows st)
                   then [Setsize f {| Rows := uint16 (ptyRows st);
                                      Cols := uint16 (ptyCols st);
                                      X := 0; Y := 0 |}]
                   else [])
               ++ [Reply true; Go (EPty f) EChannel; Go EChannel (EPty f)]
               ++ reportExit (cmd_Wait h),
             Return)
        end
      else
        let cmd := {| Path := Path cmd; Args := Args cmd;
                      Stdin := Pipe; Stdout := Pipe; Stderr := Pipe |} in
        if cmd_Start h then
          ([Start cmd; Reply true;
            Go EStdin EChannel; Go EChannel EStdout; Go EChannelStderr EStderr]
             ++ reportExit (cmd_Wait h),
           Return)
        else ([Reply false], Continue st)
  else if (Type_ req =? "exec")%string then
    match Wire.Unmarshal_exec (Payload req) with
    | None => ([Reply false], Continue st)
    | Some command =>
        let cmd := exec_Command "/bin/sh" ["-c"; command] in
        let cmd := {| Path := Path cmd; Args := Args cmd;
                      Stdin := Channel; Stdout := Channel;
                      Stderr := ChannelStderr |} in
        if cmd_Start h then
          ([Start cmd; Reply true] ++ reportExit (cmd_Wait h), Return)
        else ([Reply false], Continue st)
    end
  else ([Reply false], Continue st).

(** [for req := range reqs]: the calls made for each request that is
    handled, in order.  A request the loop never reaches has no entry. *)
Fixpoint serve (st : state) (reqs : list (Request * host)) : list (list event) :=
  match reqs with
  | [] => []
  | (req, h) :: rest =>
      match step st req h with
      | (evs, Continue st') => evs :: serve st' rest
      | (evs, Return) => [evs]
      end
  end.

(** The whole goroutine: the loop, then the deferred [ch.Close()]. *)
Definition controller (reqs : list (Request * host)) : list event :=
  List.concat (serve init reqs) ++ [Close].

(** ** The loop over new channels *)

(** [ssh.RejectionReason]. *)
Inductive RejectionReason :=
| Prohibited
| ConnectionFailed
| UnknownChannelType
| ResourceShortage.

(** A channel-open event: its type and what [Accept()] will return, either
    the channel's requests or an error. *)
Record NewChannel := {
  ChannelType : string;
  Accept : option (list (Request * host))
}.

Inductive conn_event :=
| Rejected (reason : RejectionReason) (message : string)
| Accepted
| GoController (trace : list event).

Definition supervise (newChannel : NewChannel) : list conn_event :=
  if negb (ChannelType newChannel =? "session")%string then
    [Rejected UnknownChannelType "only session channels are supported"]
  else
    match Accept newChannel with
    | None => []
    | Some requests => [Accepted; GoController (controller requests)]
    end.

Definition handleConn (chans : list NewChannel) : list conn_event :=
  flat_map supervise chans.

(** ** Concrete requests and hosts *)

Definition req_ptyReq (term : string) (cols rows : Z) : Request :=
  {| Type_ := "pty-req";
     Payload := Wire.Marshal_ptyReq
                  {| Wire.Term := term; Wire.pCols := cols; Wire.pRows := rows;
                     Wire.pWidth := 0; Wire.pHeight := 0; Wire.Modes := [] |} |}.

Definition req_windowChange (cols rows : Z) : Request :=
  {| Type_ := "window-change";
     Payload := Wire.Marshal_windowChange
                  {| Wire.wCols := cols; Wire.wRows := rows;
                     Wire.wWidth := 0; Wire.wHeight := 0 |} |}.

Definition req_shell : Request := {| Type_ := "shell"; Payload := [] |}.

Definition req_exec (command : string) : Request :=
  {| Type_ := "exec"; Payload := Wire.Marshal_exec command |}.

(** A host on which everything succeeds and the child exits with code 0;
    the pty master is descriptor 7. *)
Definition host_ok : host :=
  {| stat_bash := true; pty_Start := Some 7; cmd_Start := true;
     cmd_Wait := None |}.

(** A host on which no process can be started. *)
Definition host_down : host :=
  {| stat_bash := true; pty_Start := None; cmd_Start := false;
     cmd_Wait := None |}.

(** What [cmd.Wait()] yields for a child that called [exit(code)] while no
    copy made by os/exec failed: [nil] for code 0, otherwise an
    [*exec.ExitError] whose wait status carries the code in bits 8 to 15. *)
Definition wait_of_exit (code : Z) : option error :=
  if code =? 0 then None
  else Some (ExitError (SysWaitStatus (Z.shiftl code 8))).

(** A host whose child exits with code 0 while a copy made by os/exec
    fails, so that [cmd.Wait()] returns that I/O error. *)
Definition host_io_error : host :=
  {| stat_bash := true; pty_Start := Some 7; cmd_Start := true;
     cmd_Wait := Some OtherError |}.

(** The calls made for a terminal that is started by the "shell" case. *)
Definition pty_shell_trace (h : host) (f : File) (cols rows : Z) : list event :=
  [PtyStart (shellCommand h) f]
    ++ (if (0 <? cols) && (0 <? rows)
        then [Setsize f {| Rows := uint16 rows; Cols := uint16 cols;
                           X := 0; Y := 0 |}]
        else [])
    ++ [Reply true; Go (EPty f) EChannel; Go EChannel (EPty f)]
    ++ reportExit (cmd_Wait h).

(** ** Predicates on traces *)

(** The calls that create a process. *)
Definition is_start (e : event) : bool :=
  match e with
  | PtyStart _ _ | Start _ => true
  | _ => false
  end.

Definition is_exit_status (e : event) : bool :=
  match e with
  | SendRequest _ _ _ => true
  | _ => false
  end.

(** A "shell" or "exec" request whose process cannot be started: the payload
    passes the checks of its case and [pty.Start] / [cmd.Start] fails. *)
Definition spawn_fails (st : state) (req : Request) (h : host) : bool :=
  if (Type_ req =? "shell")%string then
    Nat.eqb (List.length (Payload req)) 0
    && (if ptyRequested st
        then match pty_Start h with None => true | Some _ => false end
        else negb (cmd_Start h))
  else if (Type_ req =? "exec")%string then
    match Wire.Unmarshal_exec (Payload req) with
    | Some _ => negb (cmd_Start h)
    | None => false
    end
  else false.

(** A request whose payload does not parse ("pty-req", "exec"), or whose
    type has no case in the [switch]. *)
Definition malformed_or_unsupported (req : Request) : bool :=
  if (Type_ req =? "pty-req")%string then
    match Wire.Unmarshal_ptyReq (Payload req) with None => true | Some _ => false end
  else if (Type_ req =? "window-change")%string then false
  else if (Type_ req =? "shell")%string then false
  else if (Type_ req =? "exec")%string then
    match Wire.Unmarshal_exec (Payload req) with None => true | Some _ => false end
  else true.

(** ** The relay goroutines and the exit notification

    Once a process is started the goroutine of the channel blocks in
    [cmd.Wait()], calls [sendExitStatus] and returns, which runs the deferred
    [ch.Close()].  Output of the child reaches the peer through a copy loop
    that runs concurrently.  The three cases of [handleConn] differ in who
    runs that loop:
    - [ViaPty]: [go func() { io.Copy(ch, f) }()] (line 185);
    - [ViaPipes]: [go func() { io.Copy(ch, stdout) }()] (line 211);
    - [Direct]: [cmd.Stdout = ch] (line 233), where os/exec copies from an
      internal pipe and [cmd.Wait()] returns only when that copy has seen
      end of file.
    In the first two nothing orders the copy loop with respect to
    [cmd.Wait()]. *)
Module Relay.

Inductive wiring := ViaPty | ViaPipes | Direct.

(** Program counter of the channel's goroutine. *)
Inductive pc :=
| AtWait       (* blocked in cmd.Wait() *)
| AtReturn     (* exit status reported, deferred Close not yet run *)
| Done.        (* ch.Close() has run *)

(** What the peer receives on the channel. *)
Inductive wire :=
| Data (b : byte)
| Call (e : event).

Record config := {
  remaining : list byte;    (* output the child has still to write *)
  exited : bool;            (* the child has terminated *)
  pending : list byte;      (* written by the child, not yet copied to ch *)
  control : pc;
  sent : list wire
}.

(** A child that will write [out] and then exit. *)
Definition start (out : list byte) : config :=
  {| remaining := out; exited := false; pending := []; control := AtWait;
     sent := [] |}.

Definition joined (w : wiring) (c : config) : Prop :=
  match w with
  | Direct => pending c = []
  | _ => True
  end.

Inductive step (w : wiring) (werr : option error) : config -> config -> Prop :=
| child_writes b bs p k s :
    step w werr
      {| remaining := b :: bs; exited := false; pending := p;
         control := k; sent := s |}
      {| remaining := bs; exited := false; pending := p ++ [b];
         control := k; sent := s |}
| child_exits p k s :
    step w werr
      {| remaining := []; exited := false; pending := p;
         control := k; sent := s |}
      {| remaining := []; exited := true; pending := p;
         control := k; sent := s |}
| copy r x b p k s :
    k <> Done ->
    step w werr
      {| remaining := r; exited := x; pending := b :: p;
         control := k; sent := s |}
      {| remaining := r; exited := x; pending := p;
         control := k; sent := s ++ [Data b] |}
| wait_returns p s :
    joined w {| remaining := []; exited := true; pending := p;
                control := AtWait; sent := s |} ->
    step w werr
      {| remaining := []; exited := true; pending := p;
         control := AtWait; sent := s |}
      {| remaining := []; exited := true; pending := p;
         control := AtReturn; sent := s ++ map Call (reportExit werr) |}
| returns p s :
    step w werr
      {| remaining := []; exited := true; pending := p;
         control := AtReturn; sent := s |}
      {| remaining := []; exited := true; pending := p;
         control := Done; sent := s ++ [Call Close] |}.

Inductive steps (w : wiring) (werr : option error) : config -> config -> Prop :=
| steps_refl c : steps w werr c c
| steps_step c1 c2 c3 :
    steps w werr c1 c2 -> step w werr c2 c3 -> steps w werr c1 c3.

(** The data bytes of a trace. *)
Fixpoint data_of (l : list wire) : list byte :=
  match l with
  | [] => []
  | Data b :: l' => b :: data_of l'
  | Call _ :: l' => data_of l'
  end.

(** Every exit-status notification in [s] comes after the whole of [out]. *)
Definition drained (out : list byte) (s : list wire) : Prop :=
  forall pre n wr payload post,
    s = pre ++ Call (SendRequest n wr payload) :: post ->
    data_of pre = out.

(** The bytes of "done\n". *)
Definition done_nl : list byte := [x64; x6f; x6e; x65; x0a].

(** What holds of every configuration of the [Direct] wiring: while the
    goroutine is in [cmd.Wait()] the channel has carried only data, a prefix
    of the output; afterwards the child is gone, nothing is pending and the
    channel has carried the whole output and then calls only. *)
Definition direct_inv (out : list byte) (c : config) : Prop :=
  match control c with
  | AtWait =>
      exists delivered,
        sent c = map Data delivered /\
        delivered ++ pending c ++ remaining c = out
  | _ =>
      exited c = true /\ pending c = [] /\ remaining c = [] /\
      exists calls, sent c = map Data out ++ map Call calls
  end.

End Relay.

(** ** More predicates on traces and the state of the loop *)

Definition is_reply (e : event) : bool :=
  match e with
  | Reply _ => true
  | _ => false
  end.

(** The pair [(ptyCols, ptyRows)]. *)
Definition geometry (st : state) : Z * Z := (ptyCols st, ptyRows st).

(** What one request does to [(ptyCols, ptyRows)]: the "pty-req" and
    "window-change" cases assign them when the payload parses. *)
Definition update_geometry (g : Z * Z) (req : Request) : Z * Z :=
  if (Type_ req =? "pty-req")%string then
    match Wire.Unmarshal_ptyReq (Payload req) with
    | Some p => (Wire.pCols p, Wire.pRows p)
    | None => g
    end
  else if (Type_ req =? "window-change")%string then
    match Wire.Unmarshal_windowChange (Payload req) with
    | Some wc => (Wire.wCols wc, Wire.wRows wc)
    | None => g
    end
  else g.

(** A "pty-req" whose payload parses: the request that sets [ptyRequested]. *)
Definition grants_pty (req : Request) : bool :=
  (Type_ req =? "pty-req")%string
  && match Wire.Unmarshal_ptyReq (Payload req) with
     | Some _ => true
     | None => false
     end.

(** The local variables after the loop has handled [reqs], when none of
    them made the goroutine return. *)
Fixpoint after (st : state) (reqs : list (Request * host)) : option state :=
  match reqs with
  | [] => Some st
  | (req, h) :: rest =>
      match snd (step st req h) with
      | Continue st' => after st' rest
      | Return => None
      end
  end.

(** The calls of a shell started on pipes (the non-PTY fallback). *)
Definition pipe_shell_trace (h : host) : list event :=
  [Start {| Path := Path (shellCommand h); Args := Args (shellCommand h);
            Stdin := Pipe; Stdout := Pipe; Stderr := Pipe |};
   Reply true;
   Go EStdin EChannel; Go EChannel EStdout; Go EChannelStderr EStderr]
    ++ reportExit (cmd_Wait h).

(** ** [main]: configuration and authentication callbacks *)

Definition serverAddr : string := "0.0.0.0:2222".
Definition allowedUser : string := "testuser".
Definition allowedPassword : string := "secret123".

(** The errors the two callbacks build with [fmt.Errorf], by format string;
    the [%q] argument is kept as it is. *)
Inductive auth_error :=
| PasswordRejected (user : string)     (* "password rejected for %q" *)
| NoPublicKeyAuth                      (* "no public key auth configured" *)
| InvalidPublicKeyFormat               (* "invalid public key format" *)
| UnknownPublicKey (user : string).    (* "unknown public key for %q" *)

(** [ssh.PublicKey]: the callbacks use nothing but [Marshal()]. *)
Record PublicKey := { Marshal : list byte }.

(** Both callbacks return [(nil, nil)] on success: [None] is the nil error. *)
Definition PasswordCallback (user : string) (pass : list byte)
    : option auth_error :=
  if (user =? allowedUser)%string
     && (string_of_list_byte pass =? allowedPassword)%string
  then None
  else Some (PasswordRejected user).

Section Main.

(** [ssh.ParsePrivateKey] and [ssh.ParseAuthorizedKey] are library
    functions; [Signer] is what the first one returns. *)
Variable Signer : Type.
Variable ParsePrivateKey : list byte -> option Signer.
Variable ParseAuthorizedKey : list byte -> option PublicKey.

(** [authorizedKeyBytes] is the slice [os.ReadFile] gave for "id_rsa.pub";
    [None] is the nil slice, which is what line 49 tests. *)
Definition PublicKeyCallback (authorizedKeyBytes : option (list byte))
    (user : string) (key : PublicKey) : option auth_error :=
  match authorizedKeyBytes with
  | None => Some NoPublicKeyAuth
  | Some bytes =>
      match ParseAuthorizedKey bytes with
      | None => Some InvalidPublicKeyFormat
      | Some authorizedKey =>
          if (string_of_list_byte (Marshal key)
                =? string_of_list_byte (Marshal authorizedKey))%string
          then None
          else Some (UnknownPublicKey user)
      end
  end.

Record ServerConfig := {
  passwordCallback : string -> list byte -> option auth_error;
  publicKeyCallback : string -> PublicKey -> option auth_error;
  hostKeys : list Signer
}.

(** What [os.ReadFile] returns: a nil slice and an error when the file
    cannot be opened, the bytes read so far (a slice that is not nil) and an
    error when a read fails, and the contents with no error otherwise. *)
Inductive ReadFile_result :=
| OpenError
| ReadError (partial : list byte)
| Contents (data : list byte).

(** The slice of a result, [None] being [nil]. *)
Definition slice (r : ReadFile_result) : option (list byte) :=
  match r with
  | OpenError => None
  | ReadError partial => Some partial
  | Contents data => Some data
  end.

(** What [main] finds when it starts: what [os.ReadFile] returns for the
    two key files and whether [net.Listen] succeeds. *)
Record environment := {
  id_rsa : ReadFile_result;
  id_rsa_pub : ReadFile_result;
  listen : bool
}.

(** The calls to [log.Fatalf]. *)
Inductive fatal :=
| FailedToLoadPrivateKey
| FailedToParsePrivateKey
| FailedToListen.

(** [main] up to its accept loop.  An error on "id_rsa" is fatal; an error
    on "id_rsa.pub" is only logged and the slice is kept as it came. *)
Definition setup (env : environment) : fatal + ServerConfig :=
  match id_rsa env with
  | OpenError | ReadError _ => inl FailedToLoadPrivateKey
  | Contents privateBytes =>
      match ParsePrivateKey privateBytes with
      | None => inl FailedToParsePrivateKey
      | Some private =>
          let authorizedKeyBytes := slice (id_rsa_pub env) in
          let config :=
            {| passwordCallback := PasswordCallback;
               publicKeyCallback := PublicKeyCallback authorizedKeyBytes;
               hostKeys := [private] |} in
          if listen env then inr config else inl FailedToListen
      end
  end.

End Main.

(** * Properties *)

(** ** One equation per case of the [switch] *)

Section Cases.

Variables (st : state) (req : Request) (h : host).

Lemma step_pty_req :
  Type_ req = "pty-req" ->
  step st req h =
    match Wire.Unmarshal_ptyReq (Payload req) with
    | None => ([Reply false], Continue st)
    | Some p =>
        ([Reply true],
         Continue {| ptyRequested := true; ptyCols := Wire.pCols p;
                     ptyRows := Wire.pRows p; ptyFile := ptyFile st |})
    end.
Proof. intros E. unfold step. rewrite E. reflexivity. Qed.

Lemma step_window_change :
  Type_ req = "window-change" ->
  step st req h =
    match Wire.Unmarshal_windowChange (Payload req) with
    | Some wc =>
        (match ptyFile st with
         | Some f => [Setsize f {| Rows := uint16 (Wire.wRows wc);
                                   Cols := uint16 (Wire.wCols wc);
                                   X := 0; Y := 0 |}]
         | None => []
         end,
         Continue {| ptyRequested := ptyRequested st;
                     ptyCols := Wire.wCols wc; ptyRows := Wire.wRows wc;
                     ptyFile := ptyFile st |})
    | None => ([], Continue st)
    end.
Proof. intros E. unfold step. rewrite E. reflexivity. Qed.

Lemma step_shell_payload :
  Type_ req = "shell" -> Payload req <> [] ->
  step st req h = ([Reply false], Continue st).
Proof.
  intros E NE. unfold step. rewrite E. cbn [String.eqb Ascii.eqb Bool.eqb].
  destruct (Payload req) as [|b bs]; [contradiction | reflexivity].
Qed.

Lemma step_shell_pty :
  Type_ req = "shell" -> Payload req = [] -> ptyRequested st = true ->
  step st req h =
    match pty_Start h with
    | None => ([Reply false], Continue st)
    | Some f =>
        ([PtyStart (shellCommand h) f]
           ++ (if (0 <? ptyCols st) && (0 <? ptyRows st)
               then [Setsize f {| Rows := uint16 (ptyRows st);
                                  Cols := uint16 (ptyCols st);
                                  X := 0; Y := 0 |}]
               else [])
           ++ [Reply true; Go (EPty f) EChannel; Go EChannel (EPty f)]
           ++ reportExit (cmd_Wait h),
         Return)
    end.
Proof.
  intros E P R. unfold step. rewrite E, P, R. reflexivity.
Qed.

Lemma step_shell_pipes :
  Type_ req = "shell" -> Payload req = [] -> ptyRequested st = false ->
  step st req h =
    if cmd_Start h then
      ([Start {| Path := Path (shellCommand h); Args := Args (shellCommand h);
                 Stdin := Pipe; Stdout := Pipe; Stderr := Pipe |};
        Reply true;
        Go EStdin EChannel; Go EChannel EStdout; Go EChannelStderr EStderr]
         ++ reportExit (cmd_Wait h),
       Return)
    else ([Reply false], Continue st).
Proof.
  intros E P R. unfold step. rewrite E, P, R. reflexivity.
Qed.

Lemma step_exec :
  Type_ req = "exec" ->
  step st req h =
    match Wire.Unmarshal_exec (Payload req) with
    | None => ([Reply false], Continue st)
    | Some command =>
        if cmd_Start h then
          ([Start {| Path := "/bin/sh"; Args := ["/bin/sh"; "-c"; command];
                     Stdin := Channel; Stdout := Channel;
                     Stderr := ChannelStderr |};
            Reply true] ++ reportExit (cmd_Wait h), Return)
        else ([Reply false], Continue st)
    end.
Proof. intros E. unfold step. rewrite E. reflexivity. Qed.

Lemma step_default :
  Type_ req <> "pty-req" -> Type_ req <> "window-change" ->
  Type_ req <> "shell" -> Type_ req <> "exec" ->
  step st req h = ([Reply false], Continue st).
Proof.
  intros N1 N2 N3 N4. unfold step.
  apply String.eqb_neq in N1, N2, N3, N4.
  rewrite N1, N2, N3, N4. reflexivity.
Qed.

End Cases.

(** The type of a request falls in exactly one case. *)
Lemma request_cases (req : Request) :
  Type_ req = "pty-req" \/ Type_ req = "window-change" \/
  Type_ req = "shell" \/ Type_ req = "exec" \/
  (Type_ req <> "pty-req" /\ Type_ req <> "window-change" /\
   Type_ req <> "shell" /\ Type_ req <> "exec").
Proof.
  destruct (String.eqb_spec (Type_ req) "pty-req"); [now left|].
  destruct (String.eqb_spec (Type_ req) "window-change"); [now right; left|].
  destruct (String.eqb_spec (Type_ req) "shell"); [now right; right; left|].
  destruct (String.eqb_spec (Type_ req) "exec"); [now right; right; right; left|].
  now right; right; right; right.
Qed.

Lemma reportExit_cases (werr : option error) :
  reportExit werr = [] \/
  exists status, reportExit werr = sendExitStatus status.
Proof.
  destruct werr as [[[w|]|]|]; cbn; eauto.
Qed.

Lemma reportExit_no_start (werr : option error) :
  filter is_start (reportExit werr) = [].
Proof. destruct werr as [[[w|]|]|]; reflexivity. Qed.

(** ** Rejections that leave the channel as it was *)

(** One pass of the loop on a "shell" request with a non-empty payload:
    it is answered by [req.Reply(false, nil)] and nothing else, no process
    is started, the variables of the channel keep their values and the loop
    goes on. *)
Theorem shell_with_payload_rejected (st : state) (req : Request) (h : host) :
  Type_ req = "shell" -> Payload req <> [] ->
  step st req h = ([Reply false], Continue st) /\
  filter is_start (fst (step st req h)) = [].
Proof.
  intros E NE. rewrite (step_shell_payload st req h E NE). split; reflexivity.
Qed.

Lemma shell_with_payload_rejected_witness :
  step init {| Type_ := "shell"; Payload := [x6c; x73] |} host_ok
    = ([Reply false], Continue init).
Proof.
  apply (shell_with_payload_rejected init
           {| Type_ := "shell"; Payload := [x6c; x73] |} host_ok).
  - reflexivity.
  - discriminate.
Defined.

(** One pass of the loop on a "pty-req" or "exec" request whose payload
    does not parse, or on a request of a type the [switch] has no case for:
    it is answered by [req.Reply(false, nil)]; [ptyRequested], [ptyCols],
    [ptyRows] and [ptyFile] keep their values and no process is started. *)
Theorem malformed_or_unsupported_rejected
    (st : state) (req : Request) (h : host) :
  malformed_or_unsupported req = true ->
  step st req h = ([Reply false], Continue st).
Proof.
  unfold malformed_or_unsupported. intros M.
  destruct (request_cases req) as [E|[E|[E|[E|(N1 & N2 & N3 & N4)]]]].
  - rewrite E in M. cbn [String.eqb Ascii.eqb Bool.eqb] in M.
    rewrite (step_pty_req st req h E).
    destruct (Wire.Unmarshal_ptyReq (Payload req)); [discriminate | reflexivity].
  - rewrite E in M. discriminate.
  - rewrite E in M. discriminate.
  - rewrite E in M. cbn [String.eqb Ascii.eqb Bool.eqb] in M.
    rewrite (step_exec st req h E).
    destruct (Wire.Unmarshal_exec (Payload req)); [discriminate | reflexivity].
  - apply step_default; assumption.
Qed.

Lemma malformed_or_unsupported_rejected_witness :
  step init {| Type_ := "subsystem"; Payload := [] |} host_ok
    = ([Reply false], Continue init)
  /\ step init {| Type_ := "pty-req"; Payload := [x00; x00] |} host_ok
    = ([Reply false], Continue init)
  /\ step init {| Type_ := "exec"; Payload := [x00; x00; x00; x09; x6c] |} host_ok
    = ([Reply false], Continue init).
Proof.
  split; [|split].
  - apply (malformed_or_unsupported_rejected init
             {| Type_ := "subsystem"; Payload := [] |} host_ok).
    reflexivity.
  - apply (malformed_or_unsupported_rejected init
             {| Type_ := "pty-req"; Payload := [x00; x00] |} host_ok).
    reflexivity.
  - apply (malformed_or_unsupported_rejected init
             {| Type_ := "exec"; Payload := [x00; x00; x00; x09; x6c] |} host_ok).
    reflexivity.
Defined.

(** C5: when [pty.Start] or [cmd.Start] fails for a "shell" or "exec"
    request, the request is answered by [req.Reply(false, nil)], no
    exit-status is sent, the variables of the channel keep their values and
    the loop goes on to the next request. *)
Theorem spawn_failure_rejected (st : state) (req : Request) (h : host) :
  spawn_fails st req h = true ->
  step st req h = ([Reply false], Continue st) /\
  filter is_exit_status (fst (step st req h)) = [] /\
  forall rest, serve st ((req, h) :: rest) = [Reply false] :: serve st rest.
Proof.
  unfold spawn_fails. intros F.
  assert (S : step st req h = ([Reply false], Continue st)).
  { destruct (request_cases req) as [E|[E|[E|[E|(N1 & N2 & N3 & N4)]]]].
    - rewrite E in F. discriminate.
    - rewrite E in F. discriminate.
    - rewrite E in F. cbn [String.eqb Ascii.eqb Bool.eqb] in F.
      apply andb_true_iff in F. destruct F as [L F].
      apply Nat.eqb_eq in L. apply length_zero_iff_nil in L.
      destruct (ptyRequested st) eqn:R.
      + rewrite (step_shell_pty st req h E L R).
        destruct (pty_Start h); [discriminate | reflexivity].
      + rewrite (step_shell_pipes st req h E L R).
        destruct (cmd_Start h); [discriminate | reflexivity].
    - rewrite E in F. cbn [String.eqb Ascii.eqb Bool.eqb] in F.
      rewrite (step_exec st req h E).
      destruct (Wire.Unmarshal_exec (Payload req)); [|discriminate].
      destruct (cmd_Start h); [discriminate | reflexivity].
    - apply String.eqb_neq in N3, N4. rewrite N3, N4 in F. discriminate. }
  split; [exact S|]. split.
  - rewrite S. reflexivity.
  - intros rest. cbn [serve]. rewrite S. reflexivity.
Qed.

Lemma spawn_failure_rejected_witness :
  step init (req_exec "ls") host_down = ([Reply false], Continue init)
  /\ step {| ptyRequested := true; ptyCols := 80; ptyRows := 24;
             ptyFile := None |} req_shell host_down
     = ([Reply false],
        Continue {| ptyRequested := true; ptyCols := 80; ptyRows := 24;
                    ptyFile := None |}).
Proof.
  split.
  - apply (spawn_failure_rejected init (req_exec "ls") host_down).
    reflexivity.
  - apply (spawn_failure_rejected
             {| ptyRequested := true; ptyCols := 80; ptyRows := 24;
                ptyFile := None |} req_shell host_down).
    reflexivity.
Defined.

(** ** Exact commands *)

(** C6: an "exec" request that is accepted carries a command string [c] and
    starts [/bin/sh -c c] with [Stdin] and [Stdout] set to the channel and
    [Stderr] to its extended-data stream; whatever [ptyRequested] holds, no
    pty is started or sized and nothing else is started. *)
Theorem exec_runs_sh_c (st : state) (req : Request) (h : host) :
  Type_ req = "exec" ->
  In (Reply true) (fst (step st req h)) ->
  exists command,
    Wire.Unmarshal_exec (Payload req) = Some command /\
    step st req h =
      ([Start {| Path := "/bin/sh"; Args := ["/bin/sh"; "-c"; command];
                 Stdin := Channel; Stdout := Channel;
                 Stderr := ChannelStderr |};
        Reply true] ++ reportExit (cmd_Wait h), Return) /\
    (forall c f, ~ In (PtyStart c f) (fst (step st req h))) /\
    (forall f ws, ~ In (Setsize f ws) (fst (step st req h))) /\
    List.length (filter is_start (fst (step st req h))) = 1%nat.
Proof.
  intros E A. rewrite (step_exec st req h E) in *.
  destruct (Wire.Unmarshal_exec (Payload req)) as [command|].
  2:{ cbn in A. destruct A as [A|[]]. discriminate. }
  destruct (cmd_Start h).
  2:{ cbn in A. destruct A as [A|[]]. discriminate. }
  exists command. split; [reflexivity|]. split; [reflexivity|].
  cbn [fst app].
  destruct (reportExit_cases (cmd_Wait h)) as [Z0|[s Z0]]; rewrite Z0;
    split; [| split | | split]; try reflexivity; cbn; intuition discriminate.
Qed.

Lemma exec_runs_sh_c_witness :
  exists command,
    Wire.Unmarshal_exec (Payload (req_exec "exit 7")) = Some command /\
    step {| ptyRequested := true; ptyCols := 80; ptyRows := 24;
            ptyFile := None |} (req_exec "exit 7") host_ok =
      ([Start {| Path := "/bin/sh"; Args := ["/bin/sh"; "-c"; command];
                 Stdin := Channel; Stdout := Channel;
                 Stderr := ChannelStderr |};
        Reply true] ++ reportExit (cmd_Wait host_ok), Return).
Proof.
  destruct (exec_runs_sh_c
              {| ptyRequested := true; ptyCols := 80; ptyRows := 24;
                 ptyFile := None |} (req_exec "exit 7") host_ok)
    as (command & P & S & _).
  - reflexivity.
  - cbn. right. left. reflexivity.
  - exists command. split; assumption.
Defined.

(** ** Geometry *)

(** C10: every [pty.Setsize] made while a request is handled, by the
    "window-change" case on a live [ptyFile] or by the "shell" case right
    after [pty.Start], passes the columns and rows reduced modulo 65536. *)
Theorem setsize_truncates
    (st : state) (req : Request) (h : host) (f : File) (ws : Winsize) :
  In (Setsize f ws) (fst (step st req h)) ->
  (exists wc,
      Type_ req = "window-change" /\
      Wire.Unmarshal_windowChange (Payload req) = Some wc /\
      ptyFile st = Some f /\
      Cols ws = Wire.wCols wc mod 65536 /\
      Rows ws = Wire.wRows wc mod 65536)
  \/ (Type_ req = "shell" /\ pty_Start h = Some f /\
      Cols ws = ptyCols st mod 65536 /\
      Rows ws = ptyRows st mod 65536).
Proof.
  intros I.
  destruct (request_cases req) as [E|[E|[E|[E|(N1 & N2 & N3 & N4)]]]].
  - rewrite (step_pty_req st req h E) in I.
    destruct (Wire.Unmarshal_ptyReq (Payload req));
      cbn in I; destruct I as [I|[]]; discriminate.
  - rewrite (step_window_change st req h E) in I. left.
    destruct (Wire.Unmarshal_windowChange (Payload req)) as [wc|];
      [|destruct I].
    exists wc. cbn [fst] in I.
    destruct (ptyFile st) as [f'|]; [|destruct I].
    destruct I as [I|[]]. injection I as -> <-.
    split; [exact E|]. repeat split; reflexivity.
  - right. destruct (Payload req) as [|b bs] eqn:P.
    2:{ rewrite (step_shell_payload st req h E) in I
          by (rewrite P; discriminate).
        cbn in I. destruct I as [I|[]]. discriminate. }
    destruct (ptyRequested st) eqn:R.
    + rewrite (step_shell_pty st req h E P R) in I.
      destruct (pty_Start h) as [f'|].
      2:{ cbn in I. destruct I as [I|[]]. discriminate. }
      cbn [fst] in I. apply in_app_or in I. destruct I as [[I|[]]|I];
        [discriminate|].
      apply in_app_or in I. destruct I as [I|I].
      * destruct ((0 <? ptyCols st) && (0 <? ptyRows st)); [|destruct I].
        destruct I as [I|[]]. injection I as -> <-.
        split; [exact E|]. repeat split; reflexivity.
      * apply in_app_or in I. destruct I as [I|I].
        -- cbn in I. intuition discriminate.
        -- destruct (reportExit_cases (cmd_Wait h)) as [Z0|[s Z0]];
             rewrite Z0 in I; cbn in I; intuition discriminate.
    + rewrite (step_shell_pipes st req h E P R) in I.
      destruct (cmd_Start h).
      * cbn [fst] in I. apply in_app_or in I. destruct I as [I|I].
        -- cbn in I. intuition discriminate.
        -- destruct (reportExit_cases (cmd_Wait h)) as [Z0|[s Z0]];
             rewrite Z0 in I; cbn in I; intuition discriminate.
      * cbn in I. destruct I as [I|[]]. discriminate.
  - rewrite (step_exec st req h E) in I.
    destruct (Wire.Unmarshal_exec (Payload req)) as [command|].
    2:{ cbn in I. destruct I as [I|[]]. discriminate. }
    destruct (cmd_Start h).
    + cbn [fst] in I. apply in_app_or in I. destruct I as [I|I].
      * cbn in I. intuition discriminate.
      * destruct (reportExit_cases (cmd_Wait h)) as [Z0|[s Z0]];
          rewrite Z0 in I; cbn in I; intuition discriminate.
    + cbn in I. destruct I as [I|[]]. discriminate.
  - rewrite (step_default st req h N1 N2 N3 N4) in I.
    cbn in I. destruct I as [I|[]]. discriminate.
Qed.

(** A terminal request for 65616 columns by 24 rows: the pty gets 80. *)
Lemma setsize_truncates_witness :
  Cols {| Rows := 24; Cols := 80; X := 0; Y := 0 |} = 65616 mod 65536.
Proof.
  destruct (setsize_truncates
              {| ptyRequested := true; ptyCols := 65616; ptyRows := 24;
                 ptyFile := None |}
              req_shell host_ok 7
              {| Rows := 24; Cols := 80; X := 0; Y := 0 |})
    as [(wc & E & _)|(_ & _ & C & _)].
  - cbn. right. left. reflexivity.
  - discriminate E.
  - exact C.
Defined.

(** ** The loop as a whole *)

(** A request either starts one process, reports its exit and leaves the
    loop, or starts nothing, reports nothing and stays in the loop. *)
Lemma step_shape (st : state) (req : Request) (h : host) :
  (exists pre,
      step st req h = (pre ++ reportExit (cmd_Wait h), Return) /\
      List.length (filter is_start pre) = 1%nat /\
      filter is_exit_status pre = [])
  \/ (exists evs st',
      step st req h = (evs, Continue st') /\
      filter is_start evs = [] /\
      filter is_exit_status evs = []).
Proof.
  destruct (request_cases req) as [E|[E|[E|[E|(N1 & N2 & N3 & N4)]]]].
  - right. rewrite (step_pty_req st req h E).
    destruct (Wire.Unmarshal_ptyReq (Payload req)); eauto.
  - right. rewrite (step_window_change st req h E).
    destruct (Wire.Unmarshal_windowChange (Payload req)); [|eauto].
    destruct (ptyFile st); eauto.
  - destruct (Payload req) as [|b bs] eqn:P.
    2:{ right. rewrite (step_shell_payload st req h E)
          by (rewrite P; discriminate). eauto. }
    destruct (ptyRequested st) eqn:R.
    + rewrite (step_shell_pty st req h E P R).
      destruct (pty_Start h) as [f|]; [left | right; eauto].
      eexists. rewrite !app_assoc. split; [reflexivity|].
      destruct ((0 <? ptyCols st) && (0 <? ptyRows st)); split; reflexivity.
    + rewrite (step_shell_pipes st req h E P R).
      destruct (cmd_Start h); [left | right; eauto].
      eexists. split; [reflexivity|]. split; reflexivity.
  - rewrite (step_exec st req h E).
    destruct (Wire.Unmarshal_exec (Payload req)) as [command|];
      [|right; eauto].
    destruct (cmd_Start h); [left | right; eauto].
    eexists. split; [reflexivity|]. split; reflexivity.
  - right. rewrite (step_default st req h N1 N2 N3 N4). eauto.
Qed.

(** [ptyFile] is assigned only on the path that ends in [return]: a request
    after which the loop goes on leaves it as it was. *)
Lemma step_keeps_ptyFile (st st' : state) (req : Request) (h : host) evs :
  step st req h = (evs, Continue st') -> ptyFile st' = ptyFile st.
Proof.
  intros S.
  destruct (request_cases req) as [E|[E|[E|[E|(N1 & N2 & N3 & N4)]]]].
  - rewrite (step_pty_req st req h E) in S.
    destruct (Wire.Unmarshal_ptyReq (Payload req));
      injection S as _ <-; reflexivity.
  - rewrite (step_window_change st req h E) in S.
    destruct (Wire.Unmarshal_windowChange (Payload req));
      injection S as _ <-; reflexivity.
  - destruct (Payload req) as [|b bs] eqn:P.
    2:{ rewrite (step_shell_payload st req h E) in S
          by (rewrite P; discriminate).
        injection S as _ <-. reflexivity. }
    destruct (ptyRequested st) eqn:R.
    + rewrite (step_shell_pty st req h E P R) in S.
      destruct (pty_Start h); [discriminate|].
      injection S as _ <-. reflexivity.
    + rewrite (step_shell_pipes st req h E P R) in S.
      destruct (cmd_Start h); [discriminate|].
      injection S as _ <-. reflexivity.
  - rewrite (step_exec st req h E) in S.
    destruct (Wire.Unmarshal_exec (Payload req)) as [command|].
    + destruct (cmd_Start h); [discriminate|].
      injection S as _ <-. reflexivity.
    + injection S as _ <-. reflexivity.
  - rewrite (step_default st req h N1 N2 N3 N4) in S.
    injection S as _ <-. reflexivity.
Qed.

(** Hence, in the loop started from [init], a "window-change" never finds a
    live [ptyFile]: it only stores the new geometry. *)
Lemma serve_window_change_silent (reqs : list (Request * host)) (st : state) :
  ptyFile st = None ->
  forall i req h evs,
    nth_error reqs i = Some (req, h) ->
    nth_error (serve st reqs) i = Some evs ->
    Type_ req = "window-change" -> evs = [].
Proof.
  revert st. induction reqs as [|[req0 h0] rest IH]; intros st N i req h evs R S E.
  - destruct i; discriminate R.
  - cbn [serve] in S. destruct (step st req0 h0) as [evs0 [st'|]] eqn:T.
    + destruct i as [|i].
      * cbn in R, S. injection R as -> ->. injection S as <-.
        rewrite (step_window_change st req h E) in T.
        destruct (Wire.Unmarshal_windowChange (Payload req)).
        -- rewrite N in T. injection T as <- _. reflexivity.
        -- injection T as <- _. reflexivity.
      * cbn in R, S. apply (IH st') with (i := i) (req := req) (h := h);
          try assumption.
        rewrite (step_keeps_ptyFile st st' req0 h0 evs0 T). exact N.
    + destruct i as [|i].
      * cbn in R, S. injection R as -> ->. injection S as <-.
        rewrite (step_window_change st req h E) in T.
        destruct (Wire.Unmarshal_windowChange (Payload req)); discriminate T.
      * cbn in S. destruct i; discriminate S.
Qed.

Lemma filter_nil_existsb {A} (p : A -> bool) (l : list A) :
  filter p l = [] -> existsb p l = false.
Proof.
  induction l as [|a l IH]; [reflexivity|]. cbn.
  destruct (p a); [discriminate | exact IH].
Qed.

(** C1, as the loop has it: over the whole life of a channel at most one
    call starts a process, and the request that starts it is the last one
    the loop handles: a request that comes later, "shell" and "exec"
    included, gets no reply of either kind and starts nothing. *)
Theorem one_process_per_channel (st : state) (reqs : list (Request * host)) :
  (List.length (filter is_start (List.concat (serve st reqs))) <= 1)%nat /\
  (forall i evs,
      nth_error (serve st reqs) i = Some evs ->
      existsb is_start evs = true ->
      forall j, (i < j)%nat -> nth_error (serve st reqs) j = None).
Proof.
  revert st. induction reqs as [|[req h] rest IH]; intros st.
  - split; [cbn; lia|]. intros [|i] evs H; discriminate H.
  - cbn [serve].
    destruct (step_shape st req h)
      as [(pre & S & L & _)|(evs0 & st' & S & F & _)]; rewrite S.
    + split.
      * cbn [List.concat]. rewrite app_nil_r, filter_app, length_app, L.
        rewrite reportExit_no_start. cbn. lia.
      * intros i evs H _ j Lt. destruct j as [|j]; [lia|].
        cbn. destruct j; reflexivity.
    + destruct (IH st') as [IH1 IH2]. split.
      * cbn [List.concat]. rewrite filter_app, length_app, F. exact IH1.
      * intros [|i] evs H Ex j Lt.
        -- cbn in H. injection H as <-.
           rewrite (filter_nil_existsb _ _ F) in Ex. discriminate.
        -- destruct j as [|j]; [lia|]. cbn in H |- *.
           apply (IH2 i evs H Ex). lia.
Qed.

Lemma one_process_per_channel_witness :
  nth_error
    (serve init [(req_shell, host_ok); (req_exec "ls", host_ok);
                 (req_shell, host_ok)]) 1 = None.
Proof.
  apply (proj2 (one_process_per_channel init
                  [(req_shell, host_ok); (req_exec "ls", host_ok);
                   (req_shell, host_ok)])
           0%nat
           (fst (step init req_shell host_ok))).
  - reflexivity.
  - reflexivity.
  - lia.
Defined.

(** C1 as stated fails: after a "shell" request has run its process, an
    "exec" request waiting on the same channel is never handled, and the
    channel sees no [req.Reply(false, nil)] at all. *)
Lemma later_run_request_gets_no_reply :
  let reqs := [(req_shell, host_ok); (req_exec "ls", host_ok)] in
  nth_error (serve init reqs) 1 = None /\
  ~ In (Reply false) (controller reqs) /\
  List.length (filter (fun e => match e with Reply _ => true | _ => false end)
                 (controller reqs)) = 1%nat.
Proof.
  cbv zeta. split; [reflexivity|]. split; [|reflexivity].
  cbn. intuition discriminate.
Qed.

(** ** Exit status *)

Lemma byteZ_Zbyte (x : Z) : Wire.byteZ (Wire.Zbyte x) = x mod 256.
Proof.
  unfold Wire.byteZ, Wire.Zbyte.
  assert (B : 0 <= x mod 256 < 256) by (apply Z.mod_pos_bound; lia).
  destruct (Byte.of_N (Z.to_N (x mod 256))) as [b|] eqn:E.
  - apply Byte.to_of_N in E. rewrite E. apply Z2N.id. lia.
  - apply Byte.of_N_None_iff in E. lia.
Qed.

(** Decoding an encoded [uint32] gives it back. *)
Lemma parse_marshal_uint32 (x : Z) (rest : list byte) :
  0 <= x < 2 ^ 32 ->
  Wire.parseUint32 (Wire.marshalUint32 x ++ rest) = Some (x, rest).
Proof.
  intros B. unfold Wire.marshalUint32, Wire.parseUint32. cbn [app].
  rewrite !byteZ_Zbyte. f_equal. f_equal.
  change 256 with (2 ^ 8).
  apply Z.bits_inj'. intros n Hn.
  rewrite !Z.lor_spec, !Z.shiftl_spec by lia.
  destruct (Z.ltb_spec n 8) as [L8|G8].
  { rewrite (Z.testbit_neg_r _ (n - 24)), (Z.testbit_neg_r _ (n - 16)),
      (Z.testbit_neg_r _ (n - 8)) by lia.
    rewrite Z.mod_pow2_bits_low by lia. reflexivity. }
  rewrite (Z.mod_pow2_bits_high x 8 n) by lia. rewrite orb_false_r.
  destruct (Z.ltb_spec n 16) as [L16|G16].
  { rewrite (Z.testbit_neg_r _ (n - 24)), (Z.testbit_neg_r _ (n - 16)) by lia.
    rewrite Z.mod_pow2_bits_low, Z.shiftr_spec by lia. cbn [orb].
    f_equal. lia. }
  rewrite (Z.mod_pow2_bits_high _ 8 (n - 8)) by lia. rewrite orb_false_r.
  destruct (Z.ltb_spec n 24) as [L24|G24].
  { rewrite (Z.testbit_neg_r _ (n - 24)) by lia.
    rewrite Z.mod_pow2_bits_low, Z.shiftr_spec by lia. cbn [orb].
    f_equal. lia. }
  rewrite (Z.mod_pow2_bits_high _ 8 (n - 16)) by lia. rewrite orb_false_r.
  destruct (Z.ltb_spec n 32) as [L32|G32].
  { rewrite Z.mod_pow2_bits_low, Z.shiftr_spec by lia. f_equal. lia. }
  rewrite (Z.mod_pow2_bits_high _ 8 (n - 24)) by lia.
  symmetry. apply Z.bits_above_log2; [lia|].
  destruct (Z.eq_dec x 0) as [->|NZ]; [cbn; lia|].
  apply Z.log2_lt_pow2; [lia|].
  assert (2 ^ 32 <= 2 ^ n) by (apply Z.pow_le_mono_r; lia). lia.
Qed.

(** The wait status of a child that called [exit(code)] gives the code. *)
Lemma ExitStatus_of_exit (code : Z) :
  0 <= code < 256 -> ExitStatus (Z.shiftl code 8) = code.
Proof.
  intros B. unfold ExitStatus, Exited.
  assert (L : Z.land (Z.shiftl code 8) 127 = 0).
  { apply Z.bits_inj'. intros n Hn.
    rewrite Z.land_spec, Z.shiftl_spec, Z.bits_0 by lia.
    destruct (Z.ltb_spec n 8).
    - rewrite Z.testbit_neg_r by lia. reflexivity.
    - change 127 with (Z.ones 7). rewrite Z.ones_spec_high by lia.
      apply andb_false_r. }
  rewrite L. cbn [Z.eqb]. rewrite Z.shiftr_shiftl_l by lia.
  cbn [Z.sub Z.opp Z.add Z.pos_sub Pos.pred_double Z.shiftl].
  change (Z.shiftl code 0) with code.
  change 255 with (Z.ones 8). rewrite Z.land_ones by lia.
  apply Z.mod_small. lia.
Qed.

(** The notification sent for a child that exited with [code] decodes to
    [code]. *)
Lemma reportExit_of_exit (code : Z) :
  0 <= code < 256 ->
  exists payload,
    reportExit (wait_of_exit code) = [SendRequest "exit-status" false payload] /\
    Wire.parseUint32 payload = Some (code, []).
Proof.
  intros B. unfold wait_of_exit.
  destruct (Z.eqb_spec code 0) as [->|NZ].
  - eexists. split; reflexivity.
  - cbn [reportExit]. unfold sendExitStatus, Wire.Marshal_exitStatus.
    rewrite (ExitStatus_of_exit code B).
    eexists. split; [reflexivity|].
    unfold uint32. rewrite Z.mod_small by lia.
    rewrite <- (app_nil_r (Wire.marshalUint32 code)).
    apply parse_marshal_uint32. lia.
Qed.

(** The notification sent for a child killed by a signal carries
    [uint32(-1)]. *)
Lemma reportExit_signaled (w : WaitStatus) :
  Exited w = false ->
  reportExit (Some (ExitError (SysWaitStatus w)))
    = [SendRequest "exit-status" false [xff; xff; xff; xff]].
Proof.
  intros S. cbn [reportExit]. unfold ExitStatus. rewrite S. reflexivity.
Qed.

(** The trace of the loop: either one process, whose exit report ends the
    trace, or no process and no exit report. *)
Lemma serve_trace (reqs : list (Request * host)) (st : state) :
  (exists pre h,
      In h (map snd reqs) /\
      List.concat (serve st reqs) = pre ++ reportExit (cmd_Wait h) /\
      filter is_exit_status pre = [])
  \/ (filter is_start (List.concat (serve st reqs)) = [] /\
      filter is_exit_status (List.concat (serve st reqs)) = []).
Proof.
  revert st. induction reqs as [|[req h] rest IH]; intros st.
  - right. split; reflexivity.
  - cbn [serve].
    destruct (step_shape st req h)
      as [(pre & S & _ & X)|(evs0 & st' & S & F & X)]; rewrite S.
    + left. exists pre, h. cbn [List.concat map snd In].
      rewrite app_nil_r. auto.
    + cbn [List.concat].
      destruct (IH st') as [(pre & h' & I & C & X')|[F' X']].
      * left. exists (evs0 ++ pre), h'. cbn [map snd In].
        rewrite C, app_assoc, filter_app, X, X'. auto.
      * right. rewrite !filter_app, F, F', X, X'. split; reflexivity.
Qed.

(** C4, as the code reports exits: when a channel has started a process,
    its trace ends with the exit report of that process followed by
    [ch.Close()], and there is no other exit-status on the channel.  The
    report is one "exit-status" request, sent without asking for a reply,
    when [cmd.Wait()] returns [nil] or an [*exec.ExitError] holding a wait
    status: its payload decodes to the exit code of a child that exited and
    is [uint32(-1)] for a child killed by a signal.  For any other error
    from [cmd.Wait()] the report is empty. *)
Theorem exit_status_then_close (reqs : list (Request * host)) :
  existsb is_start (controller reqs) = true ->
  exists pre h,
    In h (map snd reqs) /\
    controller reqs = pre ++ reportExit (cmd_Wait h) ++ [Close] /\
    filter is_exit_status pre = [] /\
    (forall code, 0 <= code < 256 -> cmd_Wait h = wait_of_exit code ->
       exists payload,
         reportExit (cmd_Wait h) = [SendRequest "exit-status" false payload] /\
         Wire.parseUint32 payload = Some (code, [])) /\
    (forall w, cmd_Wait h = Some (ExitError (SysWaitStatus w)) ->
       Exited w = false ->
       reportExit (cmd_Wait h)
         = [SendRequest "exit-status" false [xff; xff; xff; xff]]) /\
    (cmd_Wait h = Some OtherError \/ cmd_Wait h = Some (ExitError SysOther) ->
       reportExit (cmd_Wait h) = []).
Proof.
  unfold controller. intros Ex.
  destruct (serve_trace reqs init) as [(pre & h & I & C & X)|[F _]].
  - exists pre, h. split; [exact I|]. split.
    { rewrite C, app_assoc. reflexivity. }
    split; [exact X|]. split; [|split].
    + intros code B W. rewrite W. apply reportExit_of_exit, B.
    + intros w W S. rewrite W. apply reportExit_signaled, S.
    + intros [W|W]; rewrite W; reflexivity.
  - rewrite existsb_app, (filter_nil_existsb _ _ F) in Ex. discriminate.
Qed.

Lemma exit_status_then_close_witness :
  exists pre h,
    controller [(req_exec "exit 7",
                 {| stat_bash := true; pty_Start := None; cmd_Start := true;
                    cmd_Wait := wait_of_exit 7 |})]
      = pre ++ reportExit (cmd_Wait h) ++ [Close] /\
    filter is_exit_status pre = [] /\
    reportExit (cmd_Wait h)
      = [SendRequest "exit-status" false [x00; x00; x00; x07]].
Proof.
  destruct (exit_status_then_close
              [(req_exec "exit 7",
                {| stat_bash := true; pty_Start := None; cmd_Start := true;
                   cmd_Wait := wait_of_exit 7 |})])
    as (pre & h & I & C & X & _).
  - reflexivity.
  - exists pre, h. split; [exact C|]. split; [exact X|].
    destruct I as [<-|[]]. reflexivity.
Defined.

(** C4 as stated fails: an "exec" child that starts and terminates while
    [cmd.Wait()] returns an error that is not an [*exec.ExitError] gets no
    exit-status notification; the channel is closed all the same. *)
Lemma io_error_sends_no_exit_status :
  let tr := controller [(req_exec "ls", host_io_error)] in
  existsb is_start tr = true /\
  filter is_exit_status tr = [] /\
  tr = [Start {| Path := "/bin/sh"; Args := ["/bin/sh"; "-c"; "ls"];
                 Stdin := Channel; Stdout := Channel;
                 Stderr := ChannelStderr |};
        Reply true; Close].
Proof. cbv zeta. split; [|split]; reflexivity. Qed.

(** ** Geometry buffered before the shell starts *)




(** ** New channels *)

(** C8, as the loop over new channels has it: a channel-open whose type is
    not "session" is rejected with [ssh.UnknownChannelType] and no goroutine
    is started for it; for a "session" channel-open [Accept()] is called,
    and a goroutine running the channel's loop is started when it succeeds
    and none when it returns an error. *)
Theorem session_channels_only (newChannel : NewChannel) :
  (ChannelType newChannel <> "session" ->
     supervise newChannel
       = [Rejected UnknownChannelType "only session channels are supported"])
  /\ (ChannelType newChannel = "session" ->
      forall requests, Accept newChannel = Some requests ->
      supervise newChannel = [Accepted; GoController (controller requests)])
  /\ (ChannelType newChannel = "session" ->
      Accept newChannel = None ->
      supervise newChannel = []).
Proof.
  unfold supervise. split; [|split].
  - intros N. apply String.eqb_neq in N. rewrite N. reflexivity.
  - intros E requests A. rewrite E, A. reflexivity.
  - intros E A. rewrite E, A. reflexivity.
Qed.

Lemma session_channels_only_witness :
  supervise {| ChannelType := "direct-tcpip";
               Accept := Some [(req_shell, host_ok)] |}
    = [Rejected UnknownChannelType "only session channels are supported"]
  /\ supervise {| ChannelType := "session";
                  Accept := Some [(req_exec "ls", host_down)] |}
    = [Accepted; GoController [Reply false; Close]].
Proof.
  split.
  - apply (proj1 (session_channels_only
                    {| ChannelType := "direct-tcpip";
                       Accept := Some [(req_shell, host_ok)] |})).
    discriminate.
  - exact (proj1 (proj2 (session_channels_only
                    {| ChannelType := "session";
                       Accept := Some [(req_exec "ls", host_down)] |}))
             eq_refl [(req_exec "ls", host_down)] eq_refl).
Defined.

(** C8 as stated fails in its second half: a "session" channel-open whose
    [Accept()] returns an error gets no goroutine; the connection goes on
    with the next channel-open. *)
Lemma session_accept_error_starts_no_controller :
  supervise {| ChannelType := "session"; Accept := None |} = [] /\
  handleConn [{| ChannelType := "session"; Accept := None |};
              {| ChannelType := "session"; Accept := Some [] |}]
    = [Accepted; GoController [Close]].
Proof. split; reflexivity. Qed.

(** ** Output and exit status *)

Lemma data_of_app (l1 l2 : list Relay.wire) :
  Relay.data_of (l1 ++ l2) = Relay.data_of l1 ++ Relay.data_of l2.
Proof.
  induction l1 as [|[b|e] l1 IH]; cbn; [reflexivity | f_equal; exact IH | exact IH].
Qed.

Lemma data_of_data (l : list byte) : Relay.data_of (map Relay.Data l) = l.
Proof. induction l as [|b l IH]; cbn; [reflexivity | f_equal; exact IH]. Qed.

Lemma data_of_calls (l : list event) : Relay.data_of (map Relay.Call l) = [].
Proof. induction l as [|e l IH]; cbn; [reflexivity | exact IH]. Qed.

Lemma data_only_has_no_call (l : list byte) pre e post :
  map Relay.Data l <> pre ++ Relay.Call e :: post.
Proof.
  revert pre. induction l as [|b l IH]; intros [|x pre] H; cbn in H;
    try discriminate.
  injection H as _ H. exact (IH pre H).
Qed.

Lemma data_then_calls_split (out : list byte) (calls : list event) pre e post :
  map Relay.Data out ++ map Relay.Call calls = pre ++ Relay.Call e :: post ->
  Relay.data_of pre = out.
Proof.
  revert pre. induction out as [|b out IH]; intros pre H.
  - apply (f_equal Relay.data_of) in H.
    cbn [map app] in H. rewrite data_of_calls, data_of_app in H.
    symmetry in H. apply app_eq_nil in H. apply H.
  - destruct pre as [|x pre]; cbn in H; [discriminate|].
    injection H as <- H. cbn. f_equal. exact (IH pre H).
Qed.

Lemma direct_step_inv (werr : option error) (out : list byte) c c' :
  Relay.step Relay.Direct werr c c' ->
  Relay.direct_inv out c -> Relay.direct_inv out c'.
Proof.
  unfold Relay.direct_inv.
  intros S. destruct S as [b bs p k s|p k s|r x b p k s NK|p s J|p s];
    cbn [Relay.control Relay.sent Relay.pending Relay.remaining Relay.exited].
  - destruct k.
    + intros (d & E & O). exists d. split; [exact E|].
      rewrite <- O, <- !app_assoc. reflexivity.
    + intros (X & _). discriminate X.
    + intros (X & _). discriminate X.
  - destruct k.
    + intros I. exact I.
    + intros (X & _). discriminate X.
    + intros (X & _). discriminate X.
  - destruct k.
    + intros (d & E & O). exists (d ++ [b]). split.
      * rewrite E, map_app. reflexivity.
      * rewrite <- O, <- !app_assoc. reflexivity.
    + intros (_ & P & _). discriminate P.
    + contradiction.
  - cbn in J. subst p. intros (d & E & O). cbn in O. rewrite app_nil_r in O.
    subst d. repeat split. exists (reportExit werr). rewrite E. reflexivity.
  - intros (_ & P & _ & calls & E). repeat split; [exact P|].
    exists (calls ++ [Close]). rewrite E, map_app, app_assoc. reflexivity.
Qed.

(** On the "exec" path, where [cmd.Wait()] joins the copy of the output,
    every byte the child wrote is on the channel before the exit-status. *)
Lemma direct_output_drained (werr : option error) (out : list byte) c :
  Relay.steps Relay.Direct werr (Relay.start out) c ->
  Relay.drained out (Relay.sent c).
Proof.
  intros S.
  assert (I : Relay.direct_inv out c).
  { remember (Relay.start out) as c0 eqn:E0.
    induction S as [c1|c1 c2 c3 S IH T].
    - subst c1. exists []. split; reflexivity.
    - exact (direct_step_inv werr out c2 c3 T (IH E0)). }
  unfold Relay.direct_inv in I. intros pre n wr payload post E.
  destruct (Relay.control c).
  - destruct I as (d & D & _). rewrite D in E.
    exfalso. exact (data_only_has_no_call _ _ _ _ E).
  - destruct I as (_ & _ & _ & calls & D). rewrite D in E.
    exact (data_then_calls_split _ _ _ _ _ E).
  - destruct I as (_ & _ & _ & calls & D). rewrite D in E.
    exact (data_then_calls_split _ _ _ _ _ E).
Qed.

Lemma steps_one w werr c1 c2 :
  Relay.step w werr c1 c2 -> Relay.steps w werr c1 c2.
Proof.
  intros S. apply (Relay.steps_step w werr c1 c1 c2); [constructor | exact S].
Qed.

Lemma steps_trans w werr c1 c2 c3 :
  Relay.steps w werr c1 c2 -> Relay.steps w werr c2 c3 ->
  Relay.steps w werr c1 c3.
Proof.
  intros S12 S23. induction S23 as [c|c2 c c3 S IH T].
  - exact S12.
  - exact (Relay.steps_step w werr c1 c c3 (IH S12) T).
Qed.

(** The child can write all of its output before anything else happens. *)
Lemma child_writes_all w werr (out p : list byte) k s :
  Relay.steps w werr
    {| Relay.remaining := out; Relay.exited := false; Relay.pending := p;
       Relay.control := k; Relay.sent := s |}
    {| Relay.remaining := []; Relay.exited := false;
       Relay.pending := p ++ out; Relay.control := k; Relay.sent := s |}.
Proof.
  revert p. induction out as [|b out IH]; intros p.
  - rewrite app_nil_r. constructor.
  - eapply steps_trans.
    + apply steps_one. apply Relay.child_writes.
    + replace (p ++ b :: out) with ((p ++ [b]) ++ out)
        by (rewrite <- app_assoc; reflexivity).
      apply IH.
Qed.

(** While the channel is open the copy loop can empty what is pending. *)
Lemma copies_all w werr (r p : list byte) x k s :
  k <> Relay.Done ->
  Relay.steps w werr
    {| Relay.remaining := r; Relay.exited := x; Relay.pending := p;
       Relay.control := k; Relay.sent := s |}
    {| Relay.remaining := r; Relay.exited := x; Relay.pending := [];
       Relay.control := k; Relay.sent := s ++ map Relay.Data p |}.
Proof.
  intros NK. revert s. induction p as [|b p IH]; intros s.
  - cbn [map]. rewrite app_nil_r. constructor.
  - eapply steps_trans.
    + apply steps_one. apply Relay.copy. exact NK.
    + replace (s ++ map Relay.Data (b :: p))
        with ((s ++ [Relay.Data b]) ++ map Relay.Data p)
        by (rewrite <- app_assoc; reflexivity).
      apply IH.
Qed.

(** Every wiring has the run in which the output is copied first: the peer
    then receives the output, the exit report and the close, in that order.
    On the "exec" path it is the only order there is. *)
Lemma drained_run w werr (out : list byte) :
  Relay.steps w werr (Relay.start out)
    {| Relay.remaining := []; Relay.exited := true; Relay.pending := [];
       Relay.control := Relay.Done;
       Relay.sent := map Relay.Data out
                       ++ map Relay.Call (reportExit werr)
                       ++ [Relay.Call Close] |}.
Proof.
  unfold Relay.start.
  eapply steps_trans; [apply (child_writes_all w werr out [])|]. cbn [app].
  eapply steps_trans; [apply steps_one, Relay.child_exits|].
  eapply steps_trans; [apply copies_all; discriminate|]. cbn [app].
  eapply steps_trans.
  { apply steps_one, Relay.wait_returns. destruct w; exact I || reflexivity. }
  rewrite app_assoc. apply steps_one, Relay.returns.
Qed.

(** The run in which the copy loop is not scheduled before [cmd.Wait()]
    returns: the child writes, exits, the exit status is reported and the
    channel is closed. *)
Lemma unscheduled_copy_run w werr (out : list byte) :
  Relay.joined w
    {| Relay.remaining := []; Relay.exited := true; Relay.pending := out;
       Relay.control := Relay.AtWait; Relay.sent := [] |} ->
  Relay.steps w werr (Relay.start out)
    {| Relay.remaining := []; Relay.exited := true; Relay.pending := out;
       Relay.control := Relay.Done;
       Relay.sent := map Relay.Call (reportExit werr) ++ [Relay.Call Close] |}.
Proof.
  intros J. unfold Relay.start.
  eapply steps_trans; [apply (child_writes_all w werr out [])|]. cbn [app].
  eapply steps_trans; [apply steps_one, Relay.child_exits|].
  eapply steps_trans; [apply steps_one, Relay.wait_returns, J|].
  apply steps_one. cbn [app]. apply Relay.returns.
Qed.

(** C2 fails on both "shell" paths: with the relay goroutine of line 185
    (pty) or of line 211 (pipes), a child that writes "done\n" and exits
    with code 0 has a run in which the peer receives the exit-status
    carrying 0 and the close of the channel while the five bytes are still
    unread on the server side. *)
Theorem shell_exit_status_overtakes_output :
  (exists c,
      Relay.steps Relay.ViaPty None (Relay.start Relay.done_nl) c /\
      Relay.sent c
        = [Relay.Call (SendRequest "exit-status" false [x00; x00; x00; x00]);
           Relay.Call Close] /\
      Relay.pending c = Relay.done_nl /\
      ~ Relay.drained Relay.done_nl (Relay.sent c))
  /\
  (exists c,
      Relay.steps Relay.ViaPipes None (Relay.start Relay.done_nl) c /\
      Relay.sent c
        = [Relay.Call (SendRequest "exit-status" false [x00; x00; x00; x00]);
           Relay.Call Close] /\
      Relay.pending c = Relay.done_nl /\
      ~ Relay.drained Relay.done_nl (Relay.sent c)).
Proof.
  assert (N : ~ Relay.drained Relay.done_nl
                  [Relay.Call (SendRequest "exit-status" false
                                 [x00; x00; x00; x00]);
                   Relay.Call Close]).
  { intros D.
    specialize (D [] "exit-status" false [x00; x00; x00; x00]
                  [Relay.Call Close] eq_refl).
    discriminate D. }
  split.
  - eexists. split; [apply (unscheduled_copy_run Relay.ViaPty None); exact I|].
    split; [reflexivity|]. split; [reflexivity | exact N].
  - eexists. split; [apply (unscheduled_copy_run Relay.ViaPipes None); exact I|].
    split; [reflexivity|]. split; [reflexivity | exact N].
Qed.

(** * Further properties of the channel loop *)

(** Case analysis on a request as the [switch] makes it, down to the branch
    taken; every occurrence of [step st req h] is replaced by its value. *)
Ltac switch_cases st req h :=
  let E := fresh "E" in
  let U := fresh "U" in
  let P := fresh "P" in
  let R := fresh "R" in
  let O := fresh "O" in
  destruct (request_cases req) as [E|[E|[E|[E|E]]]];
  [ rewrite (step_pty_req st req h E) in *;
    destruct (Wire.Unmarshal_ptyReq (Payload req)) eqn:U
  | rewrite (step_window_change st req h E) in *;
    destruct (Wire.Unmarshal_windowChange (Payload req)) eqn:U;
    [destruct (ptyFile st) eqn:O|]
  | destruct (Payload req) eqn:P;
    [ destruct (ptyRequested st) eqn:R;
      [ rewrite (step_shell_pty st req h E P R) in *;
        destruct (pty_Start h) eqn:O;
        [destruct ((0 <? ptyCols st) && (0 <? ptyRows st))|]
      | rewrite (step_shell_pipes st req h E P R) in *;
        destruct (cmd_Start h) eqn:O ]
    | rewrite (step_shell_payload st req h E) in *
        by (rewrite P; discriminate) ]
  | rewrite (step_exec st req h E) in *;
    destruct (Wire.Unmarshal_exec (Payload req)) eqn:U;
    [destruct (cmd_Start h) eqn:O|]
  | destruct E as (?N & ?N & ?N & ?N);
    rewrite (step_default st req h) in * by assumption ].

(** ** Replies *)

(** A "window-change" request is never replied to; every other request the
    loop handles is replied to exactly once; and a "shell" or "exec" request
    is accepted exactly when a process was started for it. *)
Theorem reply_discipline (st : state) (req : Request) (h : host) :
  (Type_ req = "window-change" ->
     filter is_reply (fst (step st req h)) = []) /\
  (Type_ req <> "window-change" ->
     exists ok, filter is_reply (fst (step st req h)) = [Reply ok]) /\
  (Type_ req = "shell" \/ Type_ req = "exec" ->
     (In (Reply true) (fst (step st req h))
      <-> existsb is_start (fst (step st req h)) = true)).
Proof.
  switch_cases st req h; cbn [fst];
    try (destruct (reportExit_cases (cmd_Wait h)) as [Z0|[code Z0]];
         rewrite Z0);
    (split; [|split]).
  all: try (intros W; first [reflexivity | congruence]).
  all: try (intros W; first [eexists; reflexivity | congruence]).
  all: intros W; split; intros V;
    first [ solve [destruct W; congruence]
          | reflexivity
          | solve [cbn in V; clear W; intuition discriminate]
          | solve [cbn; clear W; intuition] ].
Qed.

Lemma reply_discipline_witness :
  filter is_reply (fst (step init (req_windowChange 80 24) host_ok)) = []
  /\ (exists ok,
        filter is_reply (fst (step init (req_exec "ls") host_down))
          = [Reply ok])
  /\ (In (Reply true) (fst (step init req_shell host_down))
      <-> existsb is_start (fst (step init req_shell host_down)) = true).
Proof.
  split; [|split].
  - apply (proj1 (reply_discipline init (req_windowChange 80 24) host_ok)).
    reflexivity.
  - apply (proj1 (proj2 (reply_discipline init (req_exec "ls") host_down))).
    discriminate.
  - apply (proj2 (proj2 (reply_discipline init req_shell host_down))).
    left. reflexivity.
Defined.

(** ** Processes *)

(** Whatever the peer sends, the only programs the loop starts are the
    login shell, [/bin/bash -l] when [os.Stat] finds it and [/bin/sh -l]
    otherwise, for a "shell" request with an empty payload, and
    [/bin/sh -c command] for an "exec" request carrying [command]; a pty is
    only ever given to the login shell. *)
Theorem started_commands
    (st : state) (req : Request) (h : host) (c : Cmd) :
  In (Start c) (fst (step st req h))
  \/ (exists f, In (PtyStart c f) (fst (step st req h))) ->
  (Type_ req = "shell" /\ Payload req = [] /\
   Path c = (if stat_bash h then "/bin/bash" else "/bin/sh") /\
   Args c = [Path c; "-l"])
  \/ (Type_ req = "exec" /\
      (forall f, ~ In (PtyStart c f) (fst (step st req h))) /\
      exists command,
        Wire.Unmarshal_exec (Payload req) = Some command /\
        c = {| Path := "/bin/sh"; Args := ["/bin/sh"; "-c"; command];
               Stdin := Channel; Stdout := Channel;
               Stderr := ChannelStderr |}).
Proof.
  intros H.
  switch_cases st req h; cbn [fst] in *;
    try (destruct (reportExit_cases (cmd_Wait h)) as [Z0|[code Z0]];
         rewrite Z0 in * );
    try solve [destruct H as [H|[f' H]]; cbn in H; intuition discriminate].
  all: destruct H as [H|[f' H]]; cbn in H;
    repeat (destruct H as [H|H]; try discriminate H); try contradiction;
    injection H as <-.
  all: try solve [left; split; [assumption|]; repeat split; reflexivity].
  all: right; split; [assumption|]; split;
    [ intros f' V; cbn in V; intuition discriminate
    | eexists; split; reflexivity ].
Qed.

Lemma started_commands_witness :
  (Type_ (req_exec "id") = "shell" /\ Payload (req_exec "id") = [] /\
   Path {| Path := "/bin/sh"; Args := ["/bin/sh"; "-c"; "id"];
           Stdin := Channel; Stdout := Channel; Stderr := ChannelStderr |}
     = (if stat_bash host_ok then "/bin/bash" else "/bin/sh") /\
   Args {| Path := "/bin/sh"; Args := ["/bin/sh"; "-c"; "id"];
           Stdin := Channel; Stdout := Channel; Stderr := ChannelStderr |}
     = ["/bin/sh"; "-l"])
  \/ (Type_ (req_exec "id") = "exec" /\
      (forall f,
          ~ In (PtyStart
                  {| Path := "/bin/sh"; Args := ["/bin/sh"; "-c"; "id"];
                     Stdin := Channel; Stdout := Channel;
                     Stderr := ChannelStderr |} f)
               (fst (step {| ptyRequested := true; ptyCols := 80;
                             ptyRows := 24; ptyFile := None |}
                          (req_exec "id") host_ok))) /\
      exists command,
        Wire.Unmarshal_exec (Payload (req_exec "id")) = Some command /\
        {| Path := "/bin/sh"; Args := ["/bin/sh"; "-c"; "id"];
           Stdin := Channel; Stdout := Channel; Stderr := ChannelStderr |}
        = {| Path := "/bin/sh"; Args := ["/bin/sh"; "-c"; command];
             Stdin := Channel; Stdout := Channel;
             Stderr := ChannelStderr |}).
Proof.
  apply (started_commands
           {| ptyRequested := true; ptyCols := 80; ptyRows := 24;
              ptyFile := None |}
           (req_exec "id") host_ok
           {| Path := "/bin/sh"; Args := ["/bin/sh"; "-c"; "id"];
              Stdin := Channel; Stdout := Channel;
              Stderr := ChannelStderr |}).
  left. cbn. left. reflexivity.
Defined.

(** ** The variables of the loop *)

(** A request after which the loop goes on changes the variables in one
    way only: a "pty-req" that parses sets [ptyRequested], it and a
    "window-change" that parses store their columns and rows, and
    [ptyFile] is left alone. *)
Lemma step_continue_state (st st' : state) (req : Request) (h : host) evs :
  step st req h = (evs, Continue st') ->
  st' = {| ptyRequested := ptyRequested st || grants_pty req;
           ptyCols := fst (update_geometry (geometry st) req);
           ptyRows := snd (update_geometry (geometry st) req);
           ptyFile := ptyFile st |}.
Proof.
  intros S. unfold grants_pty, update_geometry, geometry.
  switch_cases st req h; try discriminate S; injection S as _ <-;
    try rewrite E; cbn [String.eqb Ascii.eqb Bool.eqb andb];
    try rewrite U; cbn [fst snd];
    try (repeat match goal with
                | N : Type_ req <> _ |- _ =>
                    apply String.eqb_neq in N; rewrite ?N
                end; cbn [andb fst snd]);
    rewrite ?orb_true_r, ?orb_false_r;
    try reflexivity; destruct st;
    cbn [ptyRequested ptyCols ptyRows ptyFile] in *; congruence.
Qed.

Lemma after_state (reqs : list (Request * host)) (st st' : state) :
  after st reqs = Some st' ->
  geometry st' = fold_left update_geometry (map fst reqs) (geometry st) /\
  ptyRequested st' = ptyRequested st || existsb grants_pty (map fst reqs) /\
  ptyFile st' = ptyFile st.
Proof.
  revert st. induction reqs as [|[req h] rest IH]; intros st A.
  - injection A as <-. cbn. rewrite orb_false_r. auto.
  - cbn [after] in A. destruct (step st req h) as [evs [st1|]] eqn:S;
      cbn [snd] in A; [|discriminate A].
    destruct (IH st1 A) as (G & R & F).
    rewrite (step_continue_state st st1 req h evs S) in G, R, F.
    cbn [map fst fold_left existsb]. unfold geometry in G at 2.
    cbn [ptyCols ptyRows ptyRequested ptyFile] in G, R, F.
    rewrite <- surjective_pairing in G. rewrite orb_assoc.
    auto.
Qed.

(** While no request makes the goroutine return, the calls made for a
    list of requests are those for its first part followed by those for the
    rest, started from the variables the first part leaves. *)
Lemma serve_app (pre rest : list (Request * host)) (st st' : state) :
  after st pre = Some st' ->
  serve st (pre ++ rest) = serve st pre ++ serve st' rest /\
  List.length (serve st pre) = List.length pre.
Proof.
  revert st. induction pre as [|[req h] pre IH]; intros st A.
  - injection A as <-. split; reflexivity.
  - cbn [after] in A. cbn [serve app].
    destruct (step st req h) as [evs [st1|]] eqn:S;
      cbn [snd] in A; [|discriminate A].
    destruct (IH st1 A) as [E L]. rewrite E. cbn [app List.length].
    rewrite L. split; reflexivity.
Qed.

(** However many requests came before it without starting a process, a
    "shell" request with an empty payload gets a pty exactly when one of
    them was a "pty-req" that parsed; the pty is then sized by the last
    "pty-req" or "window-change" that parsed (when both dimensions are
    positive), and otherwise the shell runs on pipes. *)
Theorem shell_after_any_prefix
    (pre : list (Request * host)) (h : host) (st' : state) :
  after init pre = Some st' ->
  nth_error (serve init (pre ++ [(req_shell, h)])) (List.length pre)
    = Some
        (if existsb grants_pty (map fst pre) then
           match pty_Start h with
           | Some f =>
               pty_shell_trace h f
                 (fst (fold_left update_geometry (map fst pre) (0, 0)))
                 (snd (fold_left update_geometry (map fst pre) (0, 0)))
           | None => [Reply false]
           end
         else if cmd_Start h then pipe_shell_trace h else [Reply false]).
Proof.
  intros A. destruct (serve_app pre [(req_shell, h)] init st' A) as [E L].
  destruct (after_state pre init st' A) as (G & R & _).
  rewrite E, nth_error_app2 by lia. rewrite L, Nat.sub_diag.
  cbn [ptyRequested init orb] in R. change (geometry init) with (0, 0) in G.
  rewrite <- G, <- R. cbn [geometry fst snd serve].
  destruct (ptyRequested st') eqn:Q.
  - rewrite (step_shell_pty st' req_shell h eq_refl eq_refl Q).
    destruct (pty_Start h); reflexivity.
  - rewrite (step_shell_pipes st' req_shell h eq_refl eq_refl Q).
    destruct (cmd_Start h); reflexivity.
Qed.

Lemma shell_after_any_prefix_witness :
  nth_error
    (serve init
       ([(req_windowChange 80 24, host_ok);
         (req_ptyReq "xterm" 132 43, host_ok);
         ({| Type_ := "env"; Payload := [] |}, host_ok);
         (req_exec "ls", host_down);
         (req_windowChange 100 30, host_ok)] ++ [(req_shell, host_ok)]))
    5
  = Some [PtyStart (shellCommand host_ok) 7;
          Setsize 7 {| Rows := 30; Cols := 100; X := 0; Y := 0 |};
          Reply true; Go (EPty 7) EChannel; Go EChannel (EPty 7);
          SendRequest "exit-status" false [x00; x00; x00; x00]].
Proof.
  exact (shell_after_any_prefix
           [(req_windowChange 80 24, host_ok);
            (req_ptyReq "xterm" 132 43, host_ok);
            ({| Type_ := "env"; Payload := [] |}, host_ok);
            (req_exec "ls", host_down);
            (req_windowChange 100 30, host_ok)]
           host_ok
           {| ptyRequested := true; ptyCols := 100; ptyRows := 30;
              ptyFile := None |}
           eq_refl).
Defined.

(** A request that is answered with a rejection does nothing else: the
    reply is the only call made for it, the variables of the channel keep
    their values and the loop goes on. *)
Theorem rejection_changes_nothing (st : state) (req : Request) (h : host) :
  In (Reply false) (fst (step st req h)) ->
  step st req h = ([Reply false], Continue st).
Proof.
  intros H.
  switch_cases st req h; cbn [fst] in H;
    try (destruct (reportExit_cases (cmd_Wait h)) as [Z0|[code Z0]];
         rewrite Z0 in H);
    try reflexivity;
    cbn in H; exfalso; intuition discriminate.
Qed.

Lemma rejection_changes_nothing_witness :
  step {| ptyRequested := true; ptyCols := 80; ptyRows := 24;
          ptyFile := None |}
       {| Type_ := "shell"; Payload := [x6c; x73] |} host_ok
  = ([Reply false],
     Continue {| ptyRequested := true; ptyCols := 80; ptyRows := 24;
                 ptyFile := None |}).
Proof.
  apply (rejection_changes_nothing
           {| ptyRequested := true; ptyCols := 80; ptyRows := 24;
              ptyFile := None |}
           {| Type_ := "shell"; Payload := [x6c; x73] |} host_ok).
  cbn. left. reflexivity.
Defined.

Lemma serve_window_change_silent_witness :
  fst (step {| ptyRequested := true; ptyCols := 132; ptyRows := 43;
               ptyFile := None |}
            (req_windowChange 100 30) host_ok) = [].
Proof.
  apply (serve_window_change_silent
           [(req_ptyReq "xterm" 132 43, host_ok);
            (req_shell, host_down);
            (req_windowChange 100 30, host_ok)]
           init eq_refl 2%nat (req_windowChange 100 30) host_ok).
  - reflexivity.
  - reflexivity.
  - reflexivity.
Defined.

(** ** Exit status over the life of a channel *)

Lemma serve_trace_start (reqs : list (Request * host)) (st : state) :
  (exists pre h,
      List.concat (serve st reqs) = pre ++ reportExit (cmd_Wait h) /\
      filter is_exit_status pre = [] /\
      existsb is_start pre = true)
  \/ filter is_exit_status (List.concat (serve st reqs)) = [].
Proof.
  revert st. induction reqs as [|[req h] rest IH]; intros st.
  - right. reflexivity.
  - cbn [serve].
    destruct (step_shape st req h)
      as [(pre & S & L & X)|(evs0 & st' & S & F & X)]; rewrite S.
    + left. exists pre, h. cbn [List.concat]. rewrite app_nil_r.
      split; [reflexivity|]. split; [exact X|].
      destruct (existsb is_start pre) eqn:Ex; [reflexivity|].
      assert (N : filter is_start pre = []).
      { clear - Ex. induction pre as [|a pre IH]; [reflexivity|].
        cbn in Ex |- *. destruct (is_start a); [discriminate Ex|].
        apply IH, Ex. }
      rewrite N in L. discriminate L.
    + cbn [List.concat].
      destruct (IH st') as [(pre & h' & C & X' & Ex)|X'].
      * left. exists (evs0 ++ pre), h'.
        rewrite C, app_assoc, filter_app, X, X', existsb_app, Ex, orb_true_r.
        auto.
      * right. rewrite filter_app, X, X'. reflexivity.
Qed.

(** A channel carries at most one outbound request, and only if a process
    was started on it: that request is "exit-status", sent without asking
    for a reply, with a payload of four bytes. *)
Theorem exit_status_needs_a_process (reqs : list (Request * host)) :
  (List.length (filter is_exit_status (controller reqs)) <= 1)%nat /\
  (forall name wantReply payload,
      In (SendRequest name wantReply payload) (controller reqs) ->
      name = "exit-status" /\ wantReply = false /\
      List.length payload = 4%nat /\
      existsb is_start (controller reqs) = true).
Proof.
  unfold controller.
  destruct (serve_trace_start reqs init) as [(pre & h & C & X & Ex)|X].
  - rewrite C. split.
    + rewrite !filter_app, X.
      destruct (reportExit_cases (cmd_Wait h)) as [Z0|[code Z0]];
        rewrite Z0; cbn; lia.
    + intros name wantReply payload H.
      rewrite existsb_app, existsb_app, Ex. cbn [orb].
      apply in_app_or in H. destruct H as [H|[H|[]]]; [|discriminate H].
      apply in_app_or in H. destruct H as [H|H].
      * assert (I : In (SendRequest name wantReply payload)
                      (filter is_exit_status pre))
          by (apply filter_In; split; [exact H | reflexivity]).
        rewrite X in I. destruct I.
      * destruct (reportExit_cases (cmd_Wait h)) as [Z0|[code Z0]];
          rewrite Z0 in H; [destruct H|].
        destruct H as [H|[]]. injection H as <- <- <-.
        repeat split; reflexivity.
  - split.
    + rewrite filter_app, X. cbn. lia.
    + intros name wantReply payload H.
      apply in_app_or in H. destruct H as [H|[H|[]]]; [|discriminate H].
      assert (I : In (SendRequest name wantReply payload)
                    (filter is_exit_status (List.concat (serve init reqs))))
        by (apply filter_In; split; [exact H | reflexivity]).
      rewrite X in I. destruct I.
Qed.

Lemma exit_status_needs_a_process_witness :
  "exit-status" = "exit-status" /\ false = false /\
  List.length [x00; x00; x00; x07] = 4%nat /\
  existsb is_start
    (controller [(req_exec "ls", host_down);
                 (req_exec "exit 7",
                  {| stat_bash := true; pty_Start := None;
                     cmd_Start := true; cmd_Wait := wait_of_exit 7 |})])
    = true.
Proof.
  apply (proj2 (exit_status_needs_a_process
                  [(req_exec "ls", host_down);
                   (req_exec "exit 7",
                    {| stat_bash := true; pty_Start := None;
                       cmd_Start := true; cmd_Wait := wait_of_exit 7 |})])
           "exit-status" false [x00; x00; x00; x07]).
  cbn. right. right. right. left. reflexivity.
Defined.

(** For every [int] status, negative ones included, [sendExitStatus] makes
    one "exit-status" request whose four bytes decode to the status reduced
    modulo 2^32. *)
Theorem sendExitStatus_payload (status : Z) :
  exists payload,
    sendExitStatus status = [SendRequest "exit-status" false payload] /\
    List.length payload = 4%nat /\
    Wire.parseUint32 payload = Some (status mod 2 ^ 32, []).
Proof.
  eexists. split; [reflexivity|]. split; [reflexivity|].
  unfold Wire.Marshal_exitStatus, uint32.
  rewrite <- (app_nil_r (Wire.marshalUint32 _)).
  apply parse_marshal_uint32. apply Z.mod_pos_bound. lia.
Qed.

(** * [main] *)

(** ** Authentication *)

Lemma string_of_list_byte_eqb (a b : list byte) :
  (string_of_list_byte a =? string_of_list_byte b)%string = true <-> a = b.
Proof.
  rewrite String.eqb_eq. split; [|intros ->; reflexivity].
  intros H. apply (f_equal list_byte_of_string) in H.
  rewrite !list_byte_of_string_of_list_byte in H. exact H.
Qed.

(** Password authentication succeeds for one pair only, the user
    "testuser" with the password "secret123", compared byte for byte; any
    other attempt is refused with an error that names the user. *)
Theorem password_accepts_one_pair (user : string) (pass : list byte) :
  (PasswordCallback user pass = None
   <-> user = "testuser" /\ pass = list_byte_of_string "secret123") /\
  (PasswordCallback user pass = None \/
   PasswordCallback user pass = Some (PasswordRejected user)).
Proof.
  unfold PasswordCallback, allowedUser, allowedPassword.
  assert (K : (string_of_list_byte pass =? "secret123")%string = true
              <-> pass = list_byte_of_string "secret123").
  { rewrite String.eqb_eq. split.
    - intros H. apply (f_equal list_byte_of_string) in H.
      rewrite list_byte_of_string_of_list_byte in H. exact H.
    - intros ->. apply string_of_list_byte_of_string. }
  destruct (String.eqb_spec user "testuser") as [U|U];
    destruct (string_of_list_byte pass =? "secret123")%string; cbn [andb].
  - split; [|left; reflexivity].
    split; [intros _; split; [exact U | apply K; reflexivity] | reflexivity].
  - split; [|right; reflexivity].
    split; [discriminate|]. intros [_ Q]. apply K in Q. discriminate Q.
  - split; [|right; reflexivity].
    split; [discriminate | intros [Q _]; contradiction].
  - split; [|right; reflexivity].
    split; [discriminate | intros [Q _]; contradiction].
Qed.

Lemma password_accepts_one_pair_witness :
  PasswordCallback "testuser" (list_byte_of_string "secret123") = None.
Proof.
  apply (proj1 (password_accepts_one_pair
                  "testuser" (list_byte_of_string "secret123"))).
  split; reflexivity.
Defined.

(** Public-key authentication succeeds exactly when "id_rsa.pub" was
    read, parses, and the offered key marshals to the same bytes as the
    authorized one; the user name plays no part in the decision, so the
    key is accepted for every user name. *)
Theorem public_key_ignores_user
    (ParseAuthorizedKey : list byte -> option PublicKey)
    (authorizedKeyBytes : option (list byte))
    (user : string) (key : PublicKey) :
  (PublicKeyCallback ParseAuthorizedKey authorizedKeyBytes user key = None
   <-> exists bytes authorizedKey,
         authorizedKeyBytes = Some bytes /\
         ParseAuthorizedKey bytes = Some authorizedKey /\
         Marshal key = Marshal authorizedKey) /\
  (forall other,
     PublicKeyCallback ParseAuthorizedKey authorizedKeyBytes user key = None ->
     PublicKeyCallback ParseAuthorizedKey authorizedKeyBytes other key = None).
Proof.
  unfold PublicKeyCallback.
  destruct authorizedKeyBytes as [bytes|].
  2:{ split; [|intros other H; discriminate H].
      split; [discriminate|]. intros (b & a & H & _). discriminate H. }
  destruct (ParseAuthorizedKey bytes) as [authorizedKey|] eqn:PA.
  2:{ split; [|intros other H; discriminate H].
      split; [discriminate|]. intros (b & a & H & Q & _).
      injection H as <-. rewrite PA in Q. discriminate Q. }
  destruct (string_of_list_byte (Marshal key)
              =? string_of_list_byte (Marshal authorizedKey))%string eqn:M.
  - apply string_of_list_byte_eqb in M. split; [|reflexivity].
    split; [|reflexivity]. intros _. exists bytes, authorizedKey. auto.
  - split; [|intros other H; discriminate H].
    split; [discriminate|]. intros (b & a & H & Q & K).
    injection H as <-. rewrite PA in Q. injection Q as <-.
    apply string_of_list_byte_eqb in K. rewrite K in M. discriminate M.
Qed.

Lemma public_key_ignores_user_witness :
  PublicKeyCallback (fun bytes => Some {| Marshal := bytes |})
    (Some [x01; x02]) "root" {| Marshal := [x01; x02] |} = None.
Proof.
  apply (proj2 (public_key_ignores_user
                  (fun bytes => Some {| Marshal := bytes |})
                  (Some [x01; x02]) "testuser" {| Marshal := [x01; x02] |})
           "root").
  reflexivity.
Defined.

(** [main] gets as far as its accept loop exactly when "id_rsa" is read
    without error, parses, and the listener can be opened; "id_rsa.pub"
    plays no part in that.  The configuration then holds that one host key,
    the password login, and a public-key callback working on the slice read
    from "id_rsa.pub": when the file could not be opened the slice is nil
    and every key is refused as not configured; when it was opened and a
    read failed the slice is not nil, and every key is refused as badly
    formatted if what was read does not parse. *)
Theorem setup_needs_host_key_only
    (Signer : Type)
    (ParsePrivateKey : list byte -> option Signer)
    (ParseAuthorizedKey : list byte -> option PublicKey)
    (env : environment) :
  ((exists config,
       setup Signer ParsePrivateKey ParseAuthorizedKey env = inr config)
   <-> exists privateBytes private,
         id_rsa env = Contents privateBytes /\
         ParsePrivateKey privateBytes = Some private /\
         listen env = true) /\
  (forall config,
     setup Signer ParsePrivateKey ParseAuthorizedKey env = inr config ->
     (exists private, hostKeys Signer config = [private] /\
        exists privateBytes, id_rsa env = Contents privateBytes /\
          ParsePrivateKey privateBytes = Some private) /\
     passwordCallback Signer config "testuser"
       (list_byte_of_string "secret123") = None /\
     (forall user key,
        publicKeyCallback Signer config user key
          = PublicKeyCallback ParseAuthorizedKey (slice (id_rsa_pub env))
              user key) /\
     (id_rsa_pub env = OpenError ->
      forall user key,
        publicKeyCallback Signer config user key = Some NoPublicKeyAuth) /\
     (forall partial,
        id_rsa_pub env = ReadError partial ->
        ParseAuthorizedKey partial = None ->
        forall user key,
          publicKeyCallback Signer config user key
            = Some InvalidPublicKeyFormat)).
Proof.
  unfold setup.
  destruct (id_rsa env) as [|partial0|privateBytes].
  1,2: split; [split|];
    [ intros (c & H); discriminate H
    | intros (b & s & H & _); discriminate H
    | intros c H; discriminate H ].
  destruct (ParsePrivateKey privateBytes) as [private|] eqn:PP.
  2:{ split; [split|].
      - intros (c & H). discriminate H.
      - intros (b & s & H & Q & _). injection H as <-.
        rewrite PP in Q. discriminate Q.
      - intros c H. discriminate H. }
  destruct (listen env).
  - split; [split|].
    + intros _. exists privateBytes, private. auto.
    + intros _. eexists. reflexivity.
    + intros c H. injection H as <-.
      cbn [hostKeys passwordCallback publicKeyCallback].
      split; [|split; [|split; [|split]]].
      * exists private. split; [reflexivity|].
        exists privateBytes. auto.
      * reflexivity.
      * reflexivity.
      * intros N user key. rewrite N. reflexivity.
      * intros partial N Q user key. rewrite N. cbn [slice].
        unfold PublicKeyCallback. rewrite Q. reflexivity.
  - split; [split|].
    + intros (c & H). discriminate H.
    + intros (b & s & _ & _ & H). discriminate H.
    + intros c H. discriminate H.
Qed.

Lemma setup_needs_host_key_only_witness :
  exists config,
    setup (list byte) (fun b => Some b) (fun b => Some {| Marshal := b |})
      {| id_rsa := Contents [x2d; x2d]; id_rsa_pub := ReadError [];
         listen := true |}
    = inr config.
Proof.
  apply (proj1 (setup_needs_host_key_only
                  (list byte) (fun b => Some b)
                  (fun b => Some {| Marshal := b |})
                  {| id_rsa := Contents [x2d; x2d]; id_rsa_pub := ReadError [];
                     listen := true |})).
  exists [x2d; x2d], [x2d; x2d]. repeat split.
Defined.

(** * Requests on the wire *)






(** * The "exec" path drains its output *)

Lemma direct_output_drained_witness :
  Relay.drained Relay.done_nl
    (map Relay.Data Relay.done_nl
       ++ map Relay.Call (reportExit None) ++ [Relay.Call Close]).
Proof.
  exact (direct_output_drained None Relay.done_nl
           {| Relay.remaining := []; Relay.exited := true;
              Relay.pending := []; Relay.control := Relay.Done;
              Relay.sent := map Relay.Data Relay.done_nl
                              ++ map Relay.Call (reportExit None)
                              ++ [Relay.Call Close] |}
           (drained_run Relay.Direct None Relay.done_nl)).
Defined.

(** * Requests the loop reaches, and requests it never reads *)

Lemma after_app (pre rest : list (Request * host)) (st st' : state) :
  after st pre = Some st' -> after st (pre ++ rest) = after st' rest.
Proof.
  revert st. induction pre as [|[req h] pre IH]; intros st A.
  - injection A as <-. reflexivity.
  - cbn [after app] in A |- *.
    destruct (snd (step st req h)) as [st1|]; [exact (IH st1 A) | discriminate A].
Qed.

(** The loop has returned before the end of [pre] exactly when one of the
    requests of [pre] started a process. *)
Lemma after_none_iff_started (pre : list (Request * host)) (st : state) :
  after st pre = None
  <-> existsb is_start (List.concat (serve st pre)) = true.
Proof.
  revert st. induction pre as [|[req h] pre IH]; intros st.
  - cbn. split; discriminate.
  - cbn [after serve].
    destruct (step_shape st req h)
      as [(evs & S & L & _)|(evs & st1 & S & F & _)]; rewrite S; cbn [snd].
    + split; [intros _|reflexivity].
      cbn [List.concat]. rewrite app_nil_r, existsb_app.
      destruct (existsb is_start evs) eqn:Ex; [reflexivity|].
      assert (N : filter is_start evs = []).
      { clear - Ex. induction evs as [|a evs IH]; [reflexivity|].
        cbn in Ex |- *. destruct (is_start a); [discriminate Ex|].
        apply IH, Ex. }
      rewrite N in L. discriminate L.
    + cbn [List.concat].
      rewrite existsb_app, (filter_nil_existsb _ _ F). cbn [orb]. apply IH.
Qed.

(** Once the loop has returned, what follows in the list is never read. *)
Lemma serve_after_return (pre rest : list (Request * host)) (st : state) :
  after st pre = None ->
  serve st (pre ++ rest) = serve st pre /\
  (List.length (serve st pre) <= List.length pre)%nat.
Proof.
  revert st. induction pre as [|[req h] pre IH]; intros st A.
  - discriminate A.
  - cbn [after] in A. cbn [serve app].
    destruct (step st req h) as [evs [st1|]]; cbn [snd] in A.
    + destruct (IH st1 A) as [E L]. rewrite E. cbn [List.length].
      split; [reflexivity | lia].
    + cbn [List.length]. split; [reflexivity | lia].
Qed.

Lemma unreached_request
    (pre rest : list (Request * host)) (st : state) (req : Request) (h : host) :
  existsb is_start (List.concat (serve st pre)) = true ->
  nth_error (serve st (pre ++ (req, h) :: rest)) (List.length pre) = None.
Proof.
  intros Ex. apply after_none_iff_started in Ex.
  destruct (serve_after_return pre ((req, h) :: rest) st Ex) as [E L].
  rewrite E. apply nth_error_None. exact L.
Qed.

Lemma reached_rejection
    (pre rest : list (Request * host)) (st st' : state)
    (req : Request) (h : host) :
  after st pre = Some st' ->
  step st' req h = ([Reply false], Continue st') ->
  serve st (pre ++ (req, h) :: rest)
    = serve st pre ++ [Reply false] :: serve st' rest /\
  after st (pre ++ [(req, h)]) = Some st'.
Proof.
  intros A S. split.
  - destruct (serve_app pre ((req, h) :: rest) st st' A) as [E _].
    rewrite E. cbn [serve]. rewrite S. reflexivity.
  - rewrite (after_app pre [(req, h)] st st' A). cbn [after].
    rewrite S. reflexivity.
Qed.

(** C7, for the requests the loop reaches: a "shell" request with a
    non-empty payload that comes while no process has been started on the
    channel is answered by [req.Reply(false, nil)] and nothing else; no
    process is started, the variables of the channel are after it what they
    were before it, and the loop goes on with the requests that follow.  One
    that comes after a request has started a process is never read: no call
    is made for it. *)
Theorem reached_shell_with_payload_rejected
    (st : state) (pre rest : list (Request * host))
    (req : Request) (h : host) :
  Type_ req = "shell" -> Payload req <> [] ->
  (forall st',
      after st pre = Some st' ->
      serve st (pre ++ (req, h) :: rest)
        = serve st pre ++ [Reply false] :: serve st' rest /\
      after st (pre ++ [(req, h)]) = Some st') /\
  (existsb is_start (List.concat (serve st pre)) = true ->
   nth_error (serve st (pre ++ (req, h) :: rest)) (List.length pre) = None).
Proof.
  intros E NE. split.
  - intros st' A. apply reached_rejection; [exact A|].
    apply step_shell_payload; assumption.
  - apply unreached_request.
Qed.

Lemma reached_shell_with_payload_rejected_witness :
  serve init
    ([(req_ptyReq "xterm" 80 24, host_ok)]
       ++ ({| Type_ := "shell"; Payload := [x6c; x73] |}, host_ok)
       :: [(req_shell, host_ok)])
  = serve init [(req_ptyReq "xterm" 80 24, host_ok)]
      ++ [Reply false]
      :: serve {| ptyRequested := true; ptyCols := 80; ptyRows := 24;
                  ptyFile := None |} [(req_shell, host_ok)].
Proof.
  apply (proj1 (reached_shell_with_payload_rejected
                  init [(req_ptyReq "xterm" 80 24, host_ok)]
                  [(req_shell, host_ok)]
                  {| Type_ := "shell"; Payload := [x6c; x73] |} host_ok
                  eq_refl ltac:(discriminate))
           {| ptyRequested := true; ptyCols := 80; ptyRows := 24;
              ptyFile := None |}).
  reflexivity.
Defined.

(** C7 as stated fails: a "shell" request with a payload that comes after
    a "shell" request has run its process is never read, and the channel
    sees no [req.Reply(false, nil)]. *)
Lemma later_shell_with_payload_gets_no_reply :
  let reqs := [(req_shell, host_ok);
               ({| Type_ := "shell"; Payload := [x6c; x73] |}, host_ok)] in
  nth_error (serve init reqs) 1 = None /\
  ~ In (Reply false) (controller reqs).
Proof.
  cbv zeta. split; [reflexivity|]. vm_compute. intuition discriminate.
Qed.

(** C9, for the requests the loop reaches: a "pty-req" or "exec" request
    whose payload does not parse, or a request of a type the [switch] has
    no case for, that comes while no process has been started on the channel
    is answered by [req.Reply(false, nil)] and nothing else; [ptyRequested],
    [ptyCols], [ptyRows] and [ptyFile] are after it what they were before
    it, no process is started, and the loop goes on with the requests that
    follow.  One that comes after a request has started a process is never
    read: no call is made for it. *)
Theorem reached_malformed_or_unsupported_rejected
    (st : state) (pre rest : list (Request * host))
    (req : Request) (h : host) :
  malformed_or_unsupported req = true ->
  (forall st',
      after st pre = Some st' ->
      serve st (pre ++ (req, h) :: rest)
        = serve st pre ++ [Reply false] :: serve st' rest /\
      after st (pre ++ [(req, h)]) = Some st') /\
  (existsb is_start (List.concat (serve st pre)) = true ->
   nth_error (serve st (pre ++ (req, h) :: rest)) (List.length pre) = None).
Proof.
  intros M. split.
  - intros st' A. apply reached_rejection; [exact A|].
    apply malformed_or_unsupported_rejected. exact M.
  - apply unreached_request.
Qed.

Lemma reached_malformed_or_unsupported_rejected_witness :
  serve init
    ([(req_ptyReq "xterm" 80 24, host_ok)]
       ++ ({| Type_ := "subsystem"; Payload := [] |}, host_ok)
       :: [(req_shell, host_ok)])
  = serve init [(req_ptyReq "xterm" 80 24, host_ok)]
      ++ [Reply false]
      :: serve {| ptyRequested := true; ptyCols := 80; ptyRows := 24;
                  ptyFile := None |} [(req_shell, host_ok)].
Proof.
  apply (proj1 (reached_malformed_or_unsupported_rejected
                  init [(req_ptyReq "xterm" 80 24, host_ok)]
                  [(req_shell, host_ok)]
                  {| Type_ := "subsystem"; Payload := [] |} host_ok
                  eq_refl)
           {| ptyRequested := true; ptyCols := 80; ptyRows := 24;
              ptyFile := None |}).
  reflexivity.
Defined.

(** C9 as stated fails: after an "exec" request has run its process, a
    request of an unsupported type and a "pty-req" with a malformed payload
    are never read, and the channel sees no [req.Reply(false, nil)]. *)
Lemma later_malformed_or_unsupported_gets_no_reply :
  let reqs := [(req_exec "ls", host_ok);
               ({| Type_ := "subsystem"; Payload := [] |}, host_ok);
               ({| Type_ := "pty-req"; Payload := [x00; x00] |}, host_ok)] in
  nth_error (serve init reqs) 1 = None /\
  nth_error (serve init reqs) 2 = None /\
  ~ In (Reply false) (controller reqs).
Proof.
  cbv zeta. split; [reflexivity|]. split; [reflexivity|].
  vm_compute. intuition discriminate.
Qed.
